(** * Dimes CAD server: sketch planes, sketches, fillets and extrude features

    A shallow embedding of [src/server/src/geometry/{sketch_plane,sketch,
    extrude_feature,occt_engine}.cpp].  Coordinates are real numbers
    ([double] read as exact reals).  The geometry kernel (OpenCASCADE) is a
    type class [Kernel] whose operations decide whether each construction
    succeeds; shapes are the symbolic descriptions of what the code asks the
    kernel to build. *)

From Stdlib Require Import Reals Lra Lia List String Ascii Bool.
From Stdlib Require Import Permutation.
Import ListNotations.
Open Scope R_scope.

(** ** Vectors and points ([gp_Pnt], [gp_Vec], [gp_XYZ], [gp_Pnt2d], [gp_Vec2d]) *)

Record vec3 := V3 { x3 : R; y3 : R; z3 : R }.
Record pnt2 := P2 { x2 : R; y2 : R }.

Definition vadd (a b : vec3) : vec3 := V3 (x3 a + x3 b) (y3 a + y3 b) (z3 a + z3 b).
Definition vsub (a b : vec3) : vec3 := V3 (x3 a - x3 b) (y3 a - y3 b) (z3 a - z3 b).
Definition vscale (k : R) (a : vec3) : vec3 := V3 (k * x3 a) (k * y3 a) (k * z3 a).
Definition vdot (a b : vec3) : R := x3 a * x3 b + y3 a * y3 b + z3 a * z3 b.
Definition vcross (a b : vec3) : vec3 :=
  V3 (y3 a * z3 b - z3 a * y3 b) (z3 a * x3 b - x3 a * z3 b) (x3 a * y3 b - y3 a * x3 b).
Definition vmagnitude (a : vec3) : R := sqrt (vdot a a).

(** [gp_Dir(x, y, z)]: the normalised direction (the constructor raises on a
    null vector; every direction built below is a unit constant or a cross
    product of non-parallel unit vectors). *)
Definition gp_Dir (a : vec3) : vec3 := vscale (/ vmagnitude a) a.

(** 2D vectors ([gp_Vec2d]). *)
Definition padd (a b : pnt2) : pnt2 := P2 (x2 a + x2 b) (y2 a + y2 b).
Definition psub (a b : pnt2) : pnt2 := P2 (x2 a - x2 b) (y2 a - y2 b).
Definition pscale (k : R) (a : pnt2) : pnt2 := P2 (k * x2 a) (k * y2 a).
Definition pdot (a b : pnt2) : R := x2 a * x2 b + y2 a * y2 b.
Definition pcross (a b : pnt2) : R := x2 a * y2 b - y2 a * x2 b.
Definition pmagnitude (a : pnt2) : R := sqrt (pdot a a).

(** ** Sketch planes ([sketch_plane.h], [sketch_plane.cpp]) *)

Inductive PlaneType := XY | XZ | YZ | CUSTOM.

(** [gp_Ax2(P, N, Vx)]: OCCT keeps [N], sets the X direction to
    [N ^ (Vx ^ N)] normalised and the Y direction to [N ^ X]. *)
Record gp_Ax2 := mkAx2 { Location : vec3; Direction : vec3; XDirection : vec3; YDirection : vec3 }.

Definition make_Ax2 (p n vx : vec3) : gp_Ax2 :=
  let xd := gp_Dir (vcross n (vcross vx n)) in
  mkAx2 p n xd (vcross n xd).

(** The default [gp_Ax2()]: the world XY frame at the origin. *)
Definition default_Ax2 : gp_Ax2 := mkAx2 (V3 0 0 0) (V3 0 0 1) (V3 1 0 0) (V3 0 1 0).

Record SketchPlane := mkPlane {
  coordinate_system : gp_Ax2;
  plane_type : PlaneType;
  plane_id : string;
  origin : vec3;
  normal : vec3 }.

(** [SketchPlane::SketchPlane(PlaneType, origin)]. *)
Definition SketchPlane_of_type (t : PlaneType) (o : vec3) : SketchPlane :=
  match t with
  | XY => mkPlane (make_Ax2 o (gp_Dir (V3 0 0 1)) (gp_Dir (V3 1 0 0))) XY "XY_Plane"%string o (V3 0 0 1)
  | XZ => mkPlane (make_Ax2 o (gp_Dir (V3 0 1 0)) (gp_Dir (V3 1 0 0))) XZ "XZ_Plane"%string o (V3 0 1 0)
  | YZ => mkPlane (make_Ax2 o (gp_Dir (V3 1 0 0)) (gp_Dir (V3 0 1 0))) YZ "YZ_Plane"%string o (V3 1 0 0)
  | CUSTOM => mkPlane default_Ax2 CUSTOM ""%string o (V3 0 0 0)
  end.

(** [SketchPlane::to3D]: [Location + u * XDirection + v * YDirection]. *)
Definition to3D (pl : SketchPlane) (q : pnt2) : vec3 :=
  let cs := coordinate_system pl in
  vadd (Location cs) (vadd (vscale (x2 q) (XDirection cs)) (vscale (y2 q) (YDirection cs))).

(** [SketchPlane::to2D]: dot products of [point - Location] with the axes. *)
Definition to2D (pl : SketchPlane) (p : vec3) : pnt2 :=
  let cs := coordinate_system pl in
  let v := vsub p (Location cs) in
  P2 (vdot v (XDirection cs)) (vdot v (YDirection cs)).

(** A 3D point lies on the plane through [origin_] with normal [normal_]. *)
Definition on_plane (pl : SketchPlane) (p : vec3) : Prop :=
  vdot (vsub p (origin pl)) (normal pl) = 0.

Definition canonical_type (t : PlaneType) : bool :=
  match t with CUSTOM => false | _ => true end.

(** ** Decimal rendering of [size_t] ([std::stringstream << n]) *)

Fixpoint digits_aux (fuel n : nat) (acc : string) : string :=
  match fuel with
  | O => acc
  | S f =>
      let acc' := String (Ascii.ascii_of_nat (48 + n mod 10)) acc in
      if Nat.ltb n 10 then acc' else digits_aux f (n / 10) acc'
  end.

Definition nat_to_string (n : nat) : string := digits_aux (S n) n "".

(** ** Errors raised by the kernel ([Standard_Failure]) *)

Inductive Exc (A : Type) : Type :=
| Ret (a : A)
| Throw (msg : string).
Arguments Ret {A} a.
Arguments Throw {A} msg.

Definition bind {A B} (m : Exc A) (k : A -> Exc B) : Exc B :=
  match m with Ret a => k a | Throw e => Throw e end.

Notation "x <- m ;; k" := (bind m (fun x => k)) (at level 61, m at next level, right associativity).

(** [gp::Resolution()] is [RealSmall()], i.e. [DBL_MIN = 2^-1022]. *)
Definition gp_Resolution : R := / 2 ^ 1022.

(** [gp_Vec2d::Normalize]: raises when the magnitude is at most
    [gp::Resolution()]. *)
Definition Normalize (v : pnt2) : Exc pnt2 :=
  let D := pmagnitude v in
  if Rle_dec D gp_Resolution then Throw "gp_Vec2d::Normalize() - vector has zero norm"%string
  else Ret (pscale (/ D) v).

(** The branch of [gp_Vec2d::Angle] that turns the cosine and sine of the
    angle into its value. *)
Definition angle_of (Cosinus Sinus : R) : R :=
  if Rlt_dec (- 0.70710678118655) Cosinus then
    if Rlt_dec Cosinus 0.70710678118655 then
      (if Rlt_dec 0 Sinus then acos Cosinus else - acos Cosinus)
    else if Rlt_dec 0 Cosinus then asin Sinus
    else if Rlt_dec 0 Sinus then PI - asin Sinus else - PI - asin Sinus
  else if Rlt_dec 0 Cosinus then asin Sinus
  else if Rlt_dec 0 Sinus then PI - asin Sinus else - PI - asin Sinus.

(** [gp_Vec2d::Angle]: the signed angle from [a] to [b]; raises on a null
    vector. *)
Definition Angle (a b : pnt2) : Exc R :=
  let na := pmagnitude a in
  let nb := pmagnitude b in
  if Rle_dec na gp_Resolution then Throw "gp_VectorWithNullMagnitude"%string
  else if Rle_dec nb gp_Resolution then Throw "gp_VectorWithNullMagnitude"%string
  else
    let D := na * nb in
    Ret (angle_of (pdot a b / D) (pcross a b / D)).

(** [atan2] of the C library (signed zeros aside). *)
Definition atan2 (y x : R) : R :=
  if Rlt_dec 0 x then atan (y / x)
  else if Rlt_dec x 0 then (if Rle_dec 0 y then atan (y / x) + PI else atan (y / x) - PI)
  else if Rlt_dec 0 y then PI / 2
  else if Rlt_dec y 0 then - (PI / 2) else 0.

(** ** Sketch elements and sketches ([sketch.h]) *)

Inductive ElementType := LINE | CIRCLE | ARC | RECTANGLE | FILLET.

Definition ElementType_eqb (a b : ElementType) : bool :=
  match a, b with
  | LINE, LINE | CIRCLE, CIRCLE | ARC, ARC | RECTANGLE, RECTANGLE | FILLET, FILLET => true
  | _, _ => false
  end.

Record SketchElement := mkElement {
  etype : ElementType;
  id : string;
  start_point : pnt2;
  end_point : pnt2;
  center_point : pnt2;
  parameters : list R;
  referenced_elements : list string }.

Definition origin2 : pnt2 := P2 0 0.

(** [SketchElement(t, id)]: points default to [(0, 0)], empty lists. *)
Definition new_element (t : ElementType) (i : string) : SketchElement :=
  mkElement t i origin2 origin2 origin2 [] [].

Record Sketch := mkSketch {
  sketch_plane : SketchPlane;
  elements : list SketchElement;
  sketch_id : string;
  is_closed : bool }.

Definition with_elements (s : Sketch) (els : list SketchElement) : Sketch :=
  mkSketch (sketch_plane s) els (sketch_id s) (is_closed s).

(** [Sketch::Sketch(plane, id)]: an empty id becomes ["Sketch_" + time(nullptr)]. *)
Definition new_Sketch (pl : SketchPlane) (i : string) (now : nat) : Sketch :=
  mkSketch pl [] (if String.eqb i "" then ("Sketch_" ++ nat_to_string now)%string else i) false.

(** The id the authoring operations build: prefix + [(elements_.size() + 1)]. *)
Definition next_id (prefix : string) (s : Sketch) : string :=
  (prefix ++ nat_to_string (List.length (elements s) + 1))%string.

Definition push_element (s : Sketch) (e : SketchElement) : Sketch :=
  with_elements s (elements s ++ [e]).

(** [Sketch::addLine]. *)
Definition addLine (s : Sketch) (st en : pnt2) : Sketch * string :=
  let i := next_id "Line_" s in
  (push_element s (mkElement LINE i st en origin2 [] []), i).

(** [Sketch::addCircle]. *)
Definition addCircle (s : Sketch) (c : pnt2) (r : R) : Sketch * string :=
  let i := next_id "Circle_" s in
  (push_element s (mkElement CIRCLE i origin2 origin2 c [r] []), i).

(** [Sketch::addRectangle]. *)
Definition addRectangle (s : Sketch) (corner : pnt2) (w h : R) : Sketch * string :=
  let i := next_id "Rectangle_" s in
  (push_element s (mkElement RECTANGLE i corner origin2 origin2 [w; h] []), i).

(** [Sketch::addArc]. *)
Definition addArc (s : Sketch) (c st en : pnt2) (r : R) : Sketch * string :=
  let i := next_id "Arc_" s in
  (push_element s (mkElement ARC i st en c [r] []), i).

(** [Sketch::removeElement]: erase-remove of every element with that id. *)
Definition removeElement (s : Sketch) (i : string) : Sketch :=
  with_elements s (filter (fun e => negb (String.eqb (id e) i)) (elements s)).

(** The lookup loop of [addFillet] and [getElementIntersection]: every
    match overwrites the pointer, so the last element with the id wins. *)
Fixpoint find_element (els : list SketchElement) (i : string) : option SketchElement :=
  match els with
  | [] => None
  | e :: rest =>
      match find_element rest i with
      | Some e' => Some e'
      | None => if String.eqb (id e) i then Some e else None
      end
  end.

Definition is_line (e : SketchElement) : bool := ElementType_eqb (etype e) LINE.

(** [Sketch::getElementIntersection] (Line-Line only). *)
Definition getElementIntersection (s : Sketch) (id1 id2 : string) : option pnt2 :=
  match find_element (elements s) id1, find_element (elements s) id2 with
  | Some e1, Some e2 =>
      if is_line e1 && is_line e2 then
        let p1 := start_point e1 in
        let d1 := psub (end_point e1) (start_point e1) in
        let p2 := start_point e2 in
        let d2 := psub (end_point e2) (start_point e2) in
        let det := x2 d1 * y2 d2 - y2 d1 * x2 d2 in
        if Rlt_dec (Rabs det) 1e-10 then None
        else
          let dx := x2 p2 - x2 p1 in
          let dy := y2 p2 - y2 p1 in
          let t1 := (dx * y2 d2 - dy * x2 d2) / det in
          Some (P2 (x2 p1 + t1 * x2 d1) (y2 p1 + t1 * y2 d1))
      else None
  | _, _ => None
  end.

(** The tangent point on one line: project the centre on the line, then step
    [radius] from the centre towards the foot. *)
Definition fillet_tangent (e : SketchElement) (dir center : pnt2) (radius : R) : Exc pnt2 :=
  let to_center := psub center (start_point e) in
  let dot := pdot to_center dir in
  let projection := padd (start_point e) (pscale dot dir) in
  to_fillet <- Normalize (psub center projection) ;;
  Ret (psub center (pscale radius to_fillet)).

(** [Sketch::addFillet]: [Ret (s', "")] is the failure return, [Throw] an
    exception of the kernel's vector normalisation. The C++ [abs(angle)] is
    read as the real absolute value. *)
Definition addFillet (s : Sketch) (id1 id2 : string) (radius : R) : Exc (Sketch * string) :=
  let fillet_id := next_id "Fillet_" s in
  match find_element (elements s) id1, find_element (elements s) id2 with
  | Some e1, Some e2 =>
      match getElementIntersection s id1 id2 with
      | None => Ret (s, ""%string)
      | Some intersection =>
          if is_line e1 && is_line e2 then
            dir1 <- Normalize (psub (end_point e1) (start_point e1)) ;;
            dir2 <- Normalize (psub (end_point e2) (start_point e2)) ;;
            bisector <- Normalize (padd dir1 dir2) ;;
            angle <- Angle dir1 dir2 ;;
            let offset := radius / sin (Rabs angle / 2) in
            let fillet_center := padd intersection (pscale offset bisector) in
            tangent1 <- fillet_tangent e1 dir1 fillet_center radius ;;
            tangent2 <- fillet_tangent e2 dir2 fillet_center radius ;;
            let fillet := mkElement FILLET fillet_id tangent1 tangent2 fillet_center [radius] [id1; id2] in
            Ret (push_element s fillet, fillet_id)
          else Ret (s, ""%string)
      end
  | _, _ => Ret (s, ""%string)
  end.

(** A point lies on the infinite line carried by a Line element
    (perpendicular distance zero). *)
Definition on_line (l : SketchElement) (p : pnt2) : Prop :=
  pcross (psub (end_point l) (start_point l)) (psub p (start_point l)) = 0.

Definition pdist2 (p q : pnt2) : R := pdot (psub p q) (psub p q).

(** The determinant [getElementIntersection] tests against [1e-10]. *)
Definition line_det (e1 e2 : SketchElement) : R :=
  pcross (psub (end_point e1) (start_point e1)) (psub (end_point e2) (start_point e2)).

(** A sequence of authoring and removal operations on one sketch. *)
Inductive SketchOp :=
| OpLine (st en : pnt2)
| OpCircle (c : pnt2) (r : R)
| OpRectangle (corner : pnt2) (w h : R)
| OpArc (c st en : pnt2) (r : R)
| OpFillet (id1 id2 : string) (r : R)
| OpRemove (i : string).

Definition run_op (s : Sketch) (op : SketchOp) : Exc Sketch :=
  match op with
  | OpLine st en => Ret (fst (addLine s st en))
  | OpCircle c r => Ret (fst (addCircle s c r))
  | OpRectangle c w h => Ret (fst (addRectangle s c w h))
  | OpArc c st en r => Ret (fst (addArc s c st en r))
  | OpFillet i1 i2 r => p <- addFillet s i1 i2 r ;; Ret (fst p)
  | OpRemove i => Ret (removeElement s i)
  end.

Fixpoint run_ops (s : Sketch) (ops : list SketchOp) : Exc Sketch :=
  match ops with
  | [] => Ret s
  | op :: rest => s' <- run_op s op ;; run_ops s' rest
  end.

Definition element_ids (s : Sketch) : list string := map id (elements s).

(** ** The geometry kernel (OpenCASCADE), as used by the sketch and features *)

(** The edges the code asks for: [BRepBuilderAPI_MakeEdge(p, q)], an edge on
    a [Geom_Circle], an edge on a [Geom_TrimmedCurve] of a circle. *)
Inductive Edge :=
| SegmentEdge (p q : vec3)
| CircleEdge (cs : gp_Ax2) (radius : R)
| TrimmedArcEdge (cs : gp_Ax2) (radius u1 u2 : R).

Definition Wire := list Edge.
Record Face := mkFace { face_wire : Wire }.
Record Shape := Prism { prism_face : Face; prism_vector : vec3 }.

(** What a [BRepPrimAPI_MakePrism] call ends in. *)
Inductive PrismOutcome := PrismDone | PrismNotDone | PrismRaised.

Class Kernel := {
  edge_done : Edge -> bool;               (* BRepBuilderAPI_MakeEdge::IsDone *)
  wire_done : Wire -> bool;               (* BRepBuilderAPI_MakeWire::IsDone *)
  wire_valid : Wire -> bool;              (* BRepCheck_Analyzer(wire).IsValid *)
  face_done : Wire -> bool;               (* BRepBuilderAPI_MakeFace::IsDone *)
  prism_outcome : Face -> vec3 -> PrismOutcome;
  shape_valid : Shape -> bool             (* BRepCheck_Analyzer(shape).IsValid *)
}.

Definition param0 (e : SketchElement) : R := nth 0 (parameters e) 0.
Definition param1 (e : SketchElement) : R := nth 1 (parameters e) 0.

Definition located (cs : gp_Ax2) (p : vec3) : gp_Ax2 :=
  mkAx2 p (Direction cs) (XDirection cs) (YDirection cs).

Definition is_fillet (e : SketchElement) : bool := ElementType_eqb (etype e) FILLET.
Definition is_rectangle (e : SketchElement) : bool := ElementType_eqb (etype e) RECTANGLE.

Definition string_mem (i : string) (l : list string) : bool :=
  existsb (fun j => String.eqb j i) l.

Section KernelOps.
Context {K : Kernel}.

Definition make_edge (e : Edge) : option Edge := if edge_done e then Some e else None.

(** [Sketch::createElement2D]: a null edge is [None]. *)
Definition createElement2D (pl : SketchPlane) (e : SketchElement) : option Edge :=
  let plane_cs := coordinate_system pl in
  match etype e with
  | LINE => make_edge (SegmentEdge (to3D pl (start_point e)) (to3D pl (end_point e)))
  | CIRCLE => make_edge (CircleEdge (located plane_cs (to3D pl (center_point e))) (param0 e))
  | ARC => make_edge (TrimmedArcEdge plane_cs (param0 e) 0 PI)
  | RECTANGLE =>
      let corner := start_point e in
      make_edge (SegmentEdge (to3D pl corner) (to3D pl (P2 (x2 corner + param0 e) (y2 corner))))
  | FILLET =>
      let fillet_cs := located plane_cs (to3D pl (center_point e)) in
      let start_vec := psub (start_point e) (center_point e) in
      let end_vec := psub (end_point e) (center_point e) in
      let start_angle := atan2 (y2 start_vec) (x2 start_vec) in
      let end_angle0 := atan2 (y2 end_vec) (x2 end_vec) in
      let end_angle := if Rlt_dec end_angle0 start_angle then end_angle0 + 2 * PI else end_angle0 in
      let arc := TrimmedArcEdge fillet_cs (param0 e) start_angle end_angle in
      if edge_done arc then Some arc
      else make_edge (SegmentEdge (to3D pl (start_point e)) (to3D pl (end_point e)))
  end.

Definition edges_of (pl : SketchPlane) (e : SketchElement) : list Edge :=
  match createElement2D pl e with Some ed => [ed] | None => [] end.

(** The four corner edges of a rectangle; an edge that is not done makes
    [Edge()] raise. *)
Definition rectangle_edges (pl : SketchPlane) (e : SketchElement) : option (list Edge) :=
  let c := start_point e in
  let p1 := to3D pl c in
  let p2 := to3D pl (P2 (x2 c + param0 e) (y2 c)) in
  let p3 := to3D pl (P2 (x2 c + param0 e) (y2 c + param1 e)) in
  let p4 := to3D pl (P2 (x2 c) (y2 c + param1 e)) in
  let es := [SegmentEdge p1 p2; SegmentEdge p2 p3; SegmentEdge p3 p4; SegmentEdge p4 p1] in
  if forallb edge_done es then Some es else None.

(** The loop of the no-fillet case of [createWire]; [None] is a raised
    exception. *)
Fixpoint plain_wire_edges (pl : SketchPlane) (els : list SketchElement) : option (list Edge) :=
  match els with
  | [] => Some []
  | e :: rest =>
      let here := if is_rectangle e then rectangle_edges pl e else Some (edges_of pl e) in
      match here, plain_wire_edges pl rest with
      | Some a, Some b => Some (a ++ b)
      | _, _ => None
      end
  end.

(** The ids collected into [filleted_elements]. *)
Fixpoint filleted_ids (els : list SketchElement) : list string :=
  match els with
  | [] => []
  | e :: rest => (if is_fillet e then referenced_elements e else []) ++ filleted_ids rest
  end.

(** First loop of the fillet case: non-fillet elements whose id is not
    referenced by a fillet. *)
Fixpoint unfilleted_edges (pl : SketchPlane) (filleted : list string) (els : list SketchElement) : list Edge :=
  match els with
  | [] => []
  | e :: rest =>
      (if negb (is_fillet e) && negb (string_mem (id e) filleted) then edges_of pl e else [])
      ++ unfilleted_edges pl filleted rest
  end.

(** Second loop of the fillet case: the fillet arcs. *)
Fixpoint fillet_edges (pl : SketchPlane) (els : list SketchElement) : list Edge :=
  match els with
  | [] => []
  | e :: rest => (if is_fillet e then edges_of pl e else []) ++ fillet_edges pl rest
  end.

(** The edges [createWire] hands to [BRepBuilderAPI_MakeWire], in order. *)
Definition wire_edges (s : Sketch) : option (list Edge) :=
  let pl := sketch_plane s in
  let els := elements s in
  if existsb is_fillet els then
    Some (unfilleted_edges pl (filleted_ids els) els ++ fillet_edges pl els)
  else plain_wire_edges pl els.

(** [Sketch::createWire]: [None] is the null wire. *)
Definition createWire (s : Sketch) : option Wire :=
  match wire_edges s with
  | Some es => if wire_done es then Some es else None
  | None => None
  end.

(** [Sketch::createFace]. *)
Definition createFace (s : Sketch) : option Face :=
  match createWire s with
  | Some w => if face_done w then Some (mkFace w) else None
  | None => None
  end.

(** [Sketch::isValid]. *)
Definition sketch_isValid (s : Sketch) : bool :=
  match elements s with
  | [] => false
  | _ => match createWire s with Some w => wire_valid w | None => false end
  end.

(** [Sketch::getValidationErrors]. *)
Definition sketch_validation_errors (s : Sketch) : list string :=
  (match elements s with [] => ["Sketch is empty"%string] | _ => [] end) ++
  (if sketch_isValid s then [] else ["Sketch geometry is invalid"%string]).

(** The loop of [createFaceFromElement]: the first element with the id. *)
Fixpoint find_first (els : list SketchElement) (i : string) : option SketchElement :=
  match els with
  | [] => None
  | e :: rest => if String.eqb (id e) i then Some e else find_first rest i
  end.

(** [Sketch::createFaceFromElement]: [Throw] is an exception that escapes
    to the caller (an [Edge()] on an edge that is not done). *)
Definition createFaceFromElement (s : Sketch) (i : string) : Exc (option Face) :=
  let pl := sketch_plane s in
  match find_first (elements s) i with
  | None => Ret None
  | Some e =>
      if is_rectangle e then
        match rectangle_edges pl e with
        | None => Throw "StdFail_NotDone"%string
        | Some es =>
            if wire_done es then (if face_done es then Ret (Some (mkFace es)) else Ret None)
            else Ret None
        end
      else
        match createElement2D pl e with
        | None => Ret None
        | Some ed =>
            if wire_done [ed] then (if face_done [ed] then Ret (Some (mkFace [ed])) else Ret None)
            else Ret None
        end
  end.

End KernelOps.

(** ** Extrude features ([extrude_feature.h], [extrude_feature.cpp]) *)

Inductive ExtrudeType := BLIND | THROUGH_ALL | TO_SURFACE | SYMMETRIC.

Definition ExtrudeType_eqb (a b : ExtrudeType) : bool :=
  match a, b with
  | BLIND, BLIND | THROUGH_ALL, THROUGH_ALL | TO_SURFACE, TO_SURFACE | SYMMETRIC, SYMMETRIC => true
  | _, _ => false
  end.

Record ExtrudeParameters := mkParams {
  ptype : ExtrudeType;
  distance : R;
  direction : vec3;
  reverse_direction : bool;
  taper_angle : R;
  distance1 : R;
  distance2 : R }.

(** [ExtrudeParameters(dist)]: the other fields keep their defaults. *)
Definition params_of_distance (dist : R) : ExtrudeParameters :=
  mkParams BLIND dist (V3 0 0 1) false 0 5 5.

Record ExtrudeFeature := mkFeature {
  base_sketch : option Sketch;
  feature_plane : option SketchPlane;
  face_to_extrude : option Face;
  fparams : ExtrudeParameters;
  feature_id : string;
  result_shape : option Shape;
  is_valid : bool }.

Definition feature_id_of (i : string) (now : nat) : string :=
  if String.eqb i "" then ("Extrude_" ++ nat_to_string now)%string else i.

(** The two constructors: from a sketch, and from a face and its plane. *)
Definition new_feature_sketch (s : Sketch) (p : ExtrudeParameters) (i : string) (now : nat) : ExtrudeFeature :=
  mkFeature (Some s) None None p (feature_id_of i now) None false.

Definition new_feature_face (fc : Face) (pl : SketchPlane) (p : ExtrudeParameters) (i : string) (now : nat) : ExtrudeFeature :=
  mkFeature None (Some pl) (Some fc) p (feature_id_of i now) None false.

Definition set_params (f : ExtrudeFeature) (p : ExtrudeParameters) : ExtrudeFeature :=
  mkFeature (base_sketch f) (feature_plane f) (face_to_extrude f) p (feature_id f) (result_shape f) (is_valid f).

Definition set_result (f : ExtrudeFeature) (sh : option Shape) (v : bool) : ExtrudeFeature :=
  mkFeature (base_sketch f) (feature_plane f) (face_to_extrude f) (fparams f) (feature_id f) sh v.

Definition set_type (p : ExtrudeParameters) (t : ExtrudeType) : ExtrudeParameters :=
  mkParams t (distance p) (direction p) (reverse_direction p) (taper_angle p) (distance1 p) (distance2 p).

Definition set_direction (p : ExtrudeParameters) (d : vec3) : ExtrudeParameters :=
  mkParams (ptype p) (distance p) d (reverse_direction p) (taper_angle p) (distance1 p) (distance2 p).

(** [ExtrudeFeature::calculateExtrudeDirection]. *)
Definition calculateExtrudeDirection (f : ExtrudeFeature) : vec3 :=
  match base_sketch f with
  | Some s => normal (sketch_plane s)
  | None => match feature_plane f with Some pl => normal pl | None => V3 0 0 1 end
  end.

Section FeatureOps.
Context {K : Kernel}.

(** [ExtrudeFeature::getValidationErrors]. *)
Definition feature_validation_errors (f : ExtrudeFeature) : list string :=
  let p := fparams f in
  match base_sketch f, face_to_extrude f with
  | None, None => ["No base sketch or face provided"%string]
  | _, _ =>
      (match base_sketch f with
       | Some s => if sketch_isValid s then []
                   else "Base sketch is invalid"%string :: sketch_validation_errors s
       | None => []
       end) ++
      (if Rle_dec (distance p) 0 then
         (if ExtrudeType_eqb (ptype p) BLIND then ["Extrude distance must be positive"%string] else [])
       else []) ++
      (if ExtrudeType_eqb (ptype p) SYMMETRIC then
         (if Rle_dec (distance1 p) 0 then ["Symmetric extrude distances must be positive"%string]
          else if Rle_dec (distance2 p) 0 then ["Symmetric extrude distances must be positive"%string]
          else [])
       else []) ++
      (if Rlt_dec (vmagnitude (direction p)) (1e-6) then ["Extrude direction vector is too small"%string] else [])
  end.

(** [ExtrudeFeature::canExtrude]. *)
Definition canExtrude (f : ExtrudeFeature) : bool :=
  match feature_validation_errors f with [] => true | _ => false end.

(** The face both perform methods extrude. *)
Definition feature_face (f : ExtrudeFeature) : option Face :=
  match face_to_extrude f with
  | Some fc => Some fc
  | None => match base_sketch f with Some s => createFace s | None => None end
  end.

Definition make_prism (fc : Face) (v : vec3) : Exc (option Shape) :=
  match prism_outcome fc v with
  | PrismDone => Ret (Some (Prism fc v))
  | PrismNotDone => Ret None
  | PrismRaised => Throw "Standard_Failure"%string
  end.

(** The sweep vector of [performBlindExtrude]. *)
Definition blind_vector (f : ExtrudeFeature) : vec3 :=
  let v := vscale (distance (fparams f)) (calculateExtrudeDirection f) in
  if reverse_direction (fparams f) then vscale (-1) v else v.

(** [total_vector] of [performSymmetricExtrude]. *)
Definition symmetric_vector (f : ExtrudeFeature) : vec3 :=
  let dir := calculateExtrudeDirection f in
  let positive_vector := vscale (distance1 (fparams f)) dir in
  let negative_vector := vscale (- distance2 (fparams f)) dir in
  vadd positive_vector negative_vector.

(** [ExtrudeFeature::performBlindExtrude]; [None] is the null shape. *)
Definition performBlindExtrude (f : ExtrudeFeature) : Exc (option Shape) :=
  match feature_face f with
  | None => Ret None
  | Some fc => make_prism fc (blind_vector f)
  end.

(** [ExtrudeFeature::performSymmetricExtrude]. *)
Definition performSymmetricExtrude (f : ExtrudeFeature) : Exc (option Shape) :=
  match feature_face f with
  | None => Ret None
  | Some fc => make_prism fc (symmetric_vector f)
  end.

(** [ExtrudeFeature::execute]: the updated feature and the return value. *)
Definition execute (f : ExtrudeFeature) : ExtrudeFeature * bool :=
  if negb (canExtrude f) then (set_result f (result_shape f) false, false)
  else
    let r := match ptype (fparams f) with
             | BLIND => performBlindExtrude f
             | SYMMETRIC => performSymmetricExtrude f
             | THROUGH_ALL | TO_SURFACE => performBlindExtrude f
             end in
    match r with
    | Throw _ => (set_result f (result_shape f) false, false)
    | Ret sh =>
        let v := match sh with Some x => shape_valid x | None => false end in
        (set_result f sh v, v)
    end.

End FeatureOps.

(** ** The modelling session ([occt_engine.cpp]) *)

(** A [std::map<std::string, T>]: [map_set] is [m[k] = v]. *)
Definition smap (A : Type) := list (string * A).

Definition map_set {A} (k : string) (v : A) (m : smap A) : smap A :=
  (k, v) :: filter (fun kv => negb (String.eqb (fst kv) k)) m.

Fixpoint map_find {A} (m : smap A) (k : string) : option A :=
  match m with
  | [] => None
  | (k', v) :: rest => if String.eqb k' k then Some v else map_find rest k
  end.

Record Engine := mkEngine {
  shapes : smap (option Shape);
  sketch_planes : smap SketchPlane;
  sketches : smap Sketch;
  extrude_features : smap ExtrudeFeature }.

Definition empty_engine : Engine := mkEngine [] [] [] [].

Definition set_planes (e : Engine) (m : smap SketchPlane) : Engine :=
  mkEngine (shapes e) m (sketches e) (extrude_features e).
Definition set_sketches (e : Engine) (m : smap Sketch) : Engine :=
  mkEngine (shapes e) (sketch_planes e) m (extrude_features e).

(** [OCCTEngine::createSketchPlane]. *)
Definition createSketchPlane (e : Engine) (plane_type_s : string) (o : vec3) : Engine * string :=
  let plane :=
    if String.eqb plane_type_s "XY" then Some (SketchPlane_of_type XY o)
    else if String.eqb plane_type_s "XZ" then Some (SketchPlane_of_type XZ o)
    else if String.eqb plane_type_s "YZ" then Some (SketchPlane_of_type YZ o)
    else None in
  match plane with
  | None => (e, ""%string)
  | Some pl => (set_planes e (map_set (plane_id pl) pl (sketch_planes e)), plane_id pl)
  end.

(** [OCCTEngine::createSketch]; [now] is [std::time(nullptr)]. *)
Definition createSketch (e : Engine) (pid : string) (now : nat) : Engine * string :=
  match map_find (sketch_planes e) pid with
  | None => (e, ""%string)
  | Some pl =>
      let s := new_Sketch pl "" now in
      (set_sketches e (map_set (sketch_id s) s (sketches e)), sketch_id s)
  end.

Definition store_feature (e : Engine) (f : ExtrudeFeature) : Engine :=
  mkEngine (map_set (feature_id f) (result_shape f) (shapes e)) (sketch_planes e) (sketches e)
           (map_set (feature_id f) f (extrude_features e)).

Section EngineOps.
Context {K : Kernel}.

(** [OCCTEngine::extrudeSketch]. *)
Definition extrudeSketch (e : Engine) (now : nat) (sid : string) (dist : R) (dir : string) : Engine * string :=
  match map_find (sketches e) sid with
  | None => (e, ""%string)
  | Some s =>
      let f := new_feature_sketch s (params_of_distance dist) "" now in
      let (f', ok) := execute f in
      if ok then (store_feature e f', feature_id f') else (e, ""%string)
  end.

(** [OCCTEngine::extrudeSketchElement]. *)
Definition extrudeSketchElement (e : Engine) (now : nat) (sid eid : string) (dist : R) (dir : string)
  : Engine * string :=
  match map_find (sketches e) sid with
  | None => (e, ""%string)
  | Some s =>
      match createFaceFromElement s eid with
      | Throw _ => (e, ""%string)
      | Ret None => (e, ""%string)
      | Ret (Some fc) =>
          let f := new_feature_face fc (sketch_plane s) (params_of_distance dist) "" now in
          let (f', ok) := execute f in
          if ok then (store_feature e f', feature_id f') else (e, ""%string)
      end
  end.

End EngineOps.

(** ** Further sketch operations ([sketch.cpp]) *)

Definition is_circle (e : SketchElement) : bool := ElementType_eqb (etype e) CIRCLE.

(** [Sketch::isClosed]. *)
Definition isClosed (s : Sketch) : bool :=
  match elements s with
  | [] => false
  | els => if existsb is_circle els then true else is_closed s
  end.

(** [Sketch::close]. *)
Definition close (s : Sketch) : Sketch := mkSketch (sketch_plane s) (elements s) (sketch_id s) true.

(** [Sketch::clearAll]. *)
Definition sketch_clearAll (s : Sketch) : Sketch := mkSketch (sketch_plane s) [] (sketch_id s) false.

Definition Rltb (a b : R) : bool := if Rlt_dec a b then true else false.

(** [gp_Pnt2d::Distance]. *)
Definition Distance (p q : pnt2) : R := pmagnitude (psub p q).

(** [Sketch::isElementsConnected]. *)
Definition isElementsConnected (s : Sketch) (id1 id2 : string) : bool :=
  match find_element (elements s) id1, find_element (elements s) id2 with
  | Some e1, Some e2 =>
      let tolerance := 1e-6 in
      if is_line e1 && is_line e2 then
        Rltb (Distance (start_point e1) (start_point e2)) tolerance ||
        Rltb (Distance (start_point e1) (end_point e2)) tolerance ||
        Rltb (Distance (end_point e1) (start_point e2)) tolerance ||
        Rltb (Distance (end_point e1) (end_point e2)) tolerance
      else false
  | _, _ => false
  end.

(** ** Custom sketch planes ([sketch_plane.cpp]) *)

(** [gp_Dir(x, y, z)]: raises on a vector of norm at most [gp::Resolution()]. *)
Definition gp_Dir_new (v : vec3) : Exc vec3 :=
  if Rle_dec (vmagnitude v) gp_Resolution then Throw "gp_Dir() - input vector has zero norm"%string
  else Ret (gp_Dir v).

(** [gp_Dir::Crossed]: raises when the cross product has norm at most
    [gp::Resolution()]. *)
Definition gp_Dir_Crossed (a b : vec3) : Exc vec3 :=
  let v := vcross a b in
  if Rle_dec (vmagnitude v) gp_Resolution then Throw "gp_Dir::Crossed() - result vector has zero norm"%string
  else Ret (gp_Dir v).

(** [SketchPlane::SketchPlane(origin, normal, id)]. *)
Definition SketchPlane_custom (o n : vec3) (i : string) : Exc SketchPlane :=
  gp_normal <- gp_Dir_new n ;;
  x_dir <- (if Rlt_dec (Rabs (z3 n)) 0.9 then gp_Dir_Crossed gp_normal (V3 0 0 1)
            else gp_Dir_Crossed gp_normal (V3 1 0 0)) ;;
  Ret (mkPlane (make_Ax2 o gp_normal x_dir) CUSTOM i o n).

(** [SketchPlane::createCustomPlane]. *)
Definition createCustomPlane (o n : vec3) (now : nat) : Exc SketchPlane :=
  SketchPlane_custom o n ("Custom_Plane_" ++ nat_to_string now)%string.

(** ** Further extrude feature operations ([extrude_feature.cpp]) *)

Definition set_taper (p : ExtrudeParameters) (t : R) : ExtrudeParameters :=
  mkParams (ptype p) (distance p) (direction p) (reverse_direction p) t (distance1 p) (distance2 p).

Definition set_reverse (p : ExtrudeParameters) (b : bool) : ExtrudeParameters :=
  mkParams (ptype p) (distance p) (direction p) b (taper_angle p) (distance1 p) (distance2 p).

Definition set_distance (p : ExtrudeParameters) (d : R) : ExtrudeParameters :=
  mkParams (ptype p) d (direction p) (reverse_direction p) (taper_angle p) (distance1 p) (distance2 p).

Section FeatureExtras.
Context {K : Kernel}.

(** [ExtrudeFeature::generatePreview]: exceptions are not caught. *)
Definition generatePreview (f : ExtrudeFeature) : Exc (option Shape) :=
  if negb (canExtrude f) then Ret None
  else match ptype (fparams f) with
       | BLIND => performBlindExtrude f
       | SYMMETRIC => performSymmetricExtrude f
       | _ => performBlindExtrude f
       end.

(** [ExtrudeFeature::setDistance] followed by [ExtrudeFeature::regenerate]. *)
Definition setDistance_regenerate (f : ExtrudeFeature) (d : R) : ExtrudeFeature * bool :=
  execute (set_params f (set_distance (fparams f) d)).

End FeatureExtras.

(** ** Further session operations ([occt_engine.cpp]) *)

Definition set_shapes (e : Engine) (m : smap (option Shape)) : Engine :=
  mkEngine m (sketch_planes e) (sketches e) (extrude_features e).

(** [m.erase(k)]. *)
Definition map_erase {A} (k : string) (m : smap A) : smap A :=
  filter (fun kv => negb (String.eqb (fst kv) k)) m.

Definition map_mem {A} (m : smap A) (k : string) : bool :=
  match map_find m k with Some _ => true | None => false end.

(** [OCCTEngine::shapeExists], [sketchExists], [planeExists]. *)
Definition shapeExists (e : Engine) (k : string) : bool := map_mem (shapes e) k.
Definition sketchExists (e : Engine) (k : string) : bool := map_mem (sketches e) k.
Definition planeExists (e : Engine) (k : string) : bool := map_mem (sketch_planes e) k.

(** [OCCTEngine::removeShape]. *)
Definition removeShape (e : Engine) (k : string) : Engine := set_shapes e (map_erase k (shapes e)).

(** [OCCTEngine::clearAll] (the parameter table is not modelled). *)
Definition engine_clearAll (e : Engine) : Engine := mkEngine [] [] [] [].

(** The pattern of [addLineToSketch], [addCircleToSketch] and
    [addRectangleToSketch]: look the sketch up, run the authoring call on
    it in place. *)
Definition update_sketch (e : Engine) (sid : string) (op : Sketch -> Sketch * string) : Engine * string :=
  match map_find (sketches e) sid with
  | None => (e, ""%string)
  | Some s => let (s', r) := op s in (set_sketches e (map_set sid s' (sketches e)), r)
  end.

(** [OCCTEngine::addLineToSketch]. *)
Definition addLineToSketch (e : Engine) (sid : string) (x1 y1 x2 y2 : R) : Engine * string :=
  update_sketch e sid (fun s => addLine s (P2 x1 y1) (P2 x2 y2)).

(** [OCCTEngine::addCircleToSketch]. *)
Definition addCircleToSketch (e : Engine) (sid : string) (cx cy r : R) : Engine * string :=
  update_sketch e sid (fun s => addCircle s (P2 cx cy) r).

(** [OCCTEngine::addRectangleToSketch]. *)
Definition addRectangleToSketch (e : Engine) (sid : string) (x y w h : R) : Engine * string :=
  update_sketch e sid (fun s => addRectangle s (P2 x y) w h).

(** [OCCTEngine::addFilletToSketch]: a [Standard_Failure] is caught. *)
Definition addFilletToSketch (e : Engine) (sid id1 id2 : string) (r : R) : Engine * string :=
  match map_find (sketches e) sid with
  | None => (e, ""%string)
  | Some s =>
      match addFillet s id1 id2 r with
      | Throw _ => (e, ""%string)
      | Ret (s', fid) => (set_sketches e (map_set sid s' (sketches e)), fid)
      end
  end.

(** The Boolean operations of the kernel: [BRepAlgoAPI_Fuse], [_Cut],
    [_Common] and their [Shape()]; [Throw] is a raised [Standard_Failure]. *)
Class BooleanKernel := {
  fuse : option Shape -> option Shape -> Exc (option Shape);
  cut : option Shape -> option Shape -> Exc (option Shape);
  common : option Shape -> option Shape -> Exc (option Shape)
}.

Section BooleanOps.
Context {K : Kernel} {B : BooleanKernel}.

(** [OCCTEngine::validateShape]. *)
Definition validateShape (sh : option Shape) : bool :=
  match sh with Some x => shape_valid x | None => false end.

(** The common body of [unionShapes], [cutShapes] and [intersectShapes]. *)
Definition boolean_op (op : option Shape -> option Shape -> Exc (option Shape))
  (e : Engine) (a b r : string) : Engine * bool :=
  match map_find (shapes e) a, map_find (shapes e) b with
  | Some sa, Some sb =>
      match op sa sb with
      | Throw _ => (e, false)
      | Ret res => if validateShape res then (set_shapes e (map_set r res (shapes e)), true) else (e, false)
      end
  | _, _ => (e, false)
  end.

Definition unionShapes (e : Engine) (a b r : string) : Engine * bool := boolean_op fuse e a b r.
Definition cutShapes (e : Engine) (a b r : string) : Engine * bool := boolean_op cut e a b r.
Definition intersectShapes (e : Engine) (a b r : string) : Engine * bool := boolean_op common e a b r.

End BooleanOps.

(** ** Concrete sessions *)

(** A kernel on which every construction is done and every check passes. *)
Definition kernel_ok : Kernel := {|
  edge_done := fun _ => true;
  wire_done := fun _ => true;
  wire_valid := fun _ => true;
  face_done := fun _ => true;
  prism_outcome := fun _ _ => PrismDone;
  shape_valid := fun _ => true |}.

Definition xy_plane : SketchPlane := SketchPlane_of_type XY (V3 0 0 0).

Definition empty_xy_sketch : Sketch := new_Sketch xy_plane "Sketch_1" 0.

(** Two perpendicular lines meeting at (10, 0). *)
Definition corner_sketch : Sketch :=
  fst (addLine (fst (addLine empty_xy_sketch (P2 0 0) (P2 10 0))) (P2 10 0) (P2 10 10)).

(** A single circle of radius 5. *)
Definition circle_sketch : Sketch := fst (addCircle empty_xy_sketch (P2 0 0) 5).

(** Extrude features on the circle sketch. *)
Definition circle_feature (p : ExtrudeParameters) : ExtrudeFeature :=
  new_feature_sketch circle_sketch p "Extrude_1" 0.

Definition symmetric_params : ExtrudeParameters := mkParams SYMMETRIC 10 (V3 0 0 1) false 0 5 5.
Definition sideways_params : ExtrudeParameters := mkParams BLIND 10 (V3 1 0 0) false 0 5 5.
Definition through_all_params (dist : R) : ExtrudeParameters := mkParams THROUGH_ALL dist (V3 0 0 1) false 0 5 5.

(** Two lines, the first removed, then a third line. *)
Definition remove_then_add : list SketchOp :=
  [OpLine (P2 0 0) (P2 1 0); OpLine (P2 1 0) (P2 1 1); OpRemove "Line_1"; OpLine (P2 1 1) (P2 0 1)].

(** The same feature with its type set to Blind, other parameters kept. *)
Definition as_blind (f : ExtrudeFeature) : ExtrudeFeature := set_params f (set_type (fparams f) BLIND).

(** A rectangle with a fillet beside it that does not reference it. *)
Definition rect_fillet_sketch : Sketch :=
  push_element (fst (addRectangle empty_xy_sketch (P2 0 0) 2 1))
    (mkElement FILLET "Fillet_2" (P2 0 0) (P2 1 1) (P2 1 0) [1] ["Line_1"; "Line_2"]%string).

(** The custom plane [createCustomPlane] builds at time 0 for the normal
    [(1, 0, 0)] through the origin. *)
Definition custom_x_plane : SketchPlane :=
  mkPlane (make_Ax2 (V3 0 0 0) (gp_Dir (V3 1 0 0)) (gp_Dir (vcross (gp_Dir (V3 1 0 0)) (V3 0 0 1))))
    CUSTOM "Custom_Plane_0" (V3 0 0 0) (V3 1 0 0).

(** A session holding [corner_sketch] under ["Sketch_1"]. *)
Definition corner_session : Engine := mkEngine [] [] [("Sketch_1"%string, corner_sketch)] [].

(** * Theorems *)

(** ** Vector algebra *)

Lemma vec3_eq (a b c a' b' c' : R) : a = a' -> b = b' -> c = c' -> V3 a b c = V3 a' b' c'.
Proof. intros -> -> ->; reflexivity. Qed.

Lemma pnt2_eq (a b a' b' : R) : a = a' -> b = b' -> P2 a b = P2 a' b'.
Proof. intros -> ->; reflexivity. Qed.

Lemma gp_Dir_unit (v : vec3) : vdot v v = 1 -> gp_Dir v = v.
Proof.
  intros H; unfold gp_Dir, vmagnitude; rewrite H, sqrt_1, Rinv_1.
  destruct v; unfold vscale; simpl; apply vec3_eq; ring.
Qed.

Lemma vcross_vcross (a b c : vec3) :
  vcross a (vcross b c) = vsub (vscale (vdot a c) b) (vscale (vdot a b) c).
Proof.
  destruct a, b, c; unfold vcross, vsub, vscale, vdot; simpl; apply vec3_eq; ring.
Qed.

(** For a unit normal and a unit X direction orthogonal to it, [gp_Ax2]
    keeps both as given. *)
Lemma make_Ax2_orthonormal (p n vx : vec3) :
  vdot n n = 1 -> vdot vx vx = 1 -> vdot n vx = 0 ->
  make_Ax2 p n vx = mkAx2 p n vx (vcross n vx).
Proof.
  intros Hn Hx Hnx; unfold make_Ax2.
  replace (vcross n (vcross vx n)) with vx.
  - rewrite gp_Dir_unit by exact Hx; reflexivity.
  - rewrite vcross_vcross, Hn, Hnx.
    destruct vx, n; unfold vsub, vscale; simpl; apply vec3_eq; ring.
Qed.

Lemma canonical_frame (t : PlaneType) (o : vec3) :
  canonical_type t = true ->
  exists xd yd, coordinate_system (SketchPlane_of_type t o) = mkAx2 o (normal (SketchPlane_of_type t o)) xd yd /\
    origin (SketchPlane_of_type t o) = o /\
    ((xd = V3 1 0 0 /\ yd = V3 0 1 0 /\ normal (SketchPlane_of_type t o) = V3 0 0 1) \/
     (xd = V3 1 0 0 /\ yd = V3 0 0 (-1) /\ normal (SketchPlane_of_type t o) = V3 0 1 0) \/
     (xd = V3 0 1 0 /\ yd = V3 0 0 1 /\ normal (SketchPlane_of_type t o) = V3 1 0 0)).
Proof.
  intros Ht; destruct t; try discriminate; simpl;
    rewrite !gp_Dir_unit by (unfold vdot; simpl; ring);
    rewrite make_Ax2_orthonormal by (unfold vdot; simpl; ring);
    do 2 eexists; (split; [reflexivity | split; [reflexivity |]]);
    [left | right; left | right; right];
    repeat split; unfold vcross; simpl; apply vec3_eq; ring.
Qed.

(** C8: on a plane built from one of the canonical types XY, XZ, YZ (at any
    origin), [to2D] undoes [to3D] on every 2D point, and [to3D] undoes
    [to2D] on every 3D point lying on the plane. *)
Theorem plane_roundtrip (t : PlaneType) (o : vec3) (Ht : canonical_type t = true) :
  (forall q, to2D (SketchPlane_of_type t o) (to3D (SketchPlane_of_type t o) q) = q) /\
  (forall p, on_plane (SketchPlane_of_type t o) p ->
     to3D (SketchPlane_of_type t o) (to2D (SketchPlane_of_type t o) p) = p).
Proof.
  destruct (canonical_frame t o Ht) as (xd & yd & Hcs & Ho & Hax).
  unfold on_plane, to3D, to2D; rewrite Hcs, Ho; simpl.
  destruct o as [ox oy oz].
  destruct Hax as [(-> & -> & ->) | [(-> & -> & ->) | (-> & -> & ->)]]; split;
    intros q; destruct q; unfold vdot, vadd, vsub, vscale; simpl;
    first [apply pnt2_eq; ring | intros H; apply vec3_eq; lra].
Qed.

(** ** Fillet geometry *)

Lemma gp_Resolution_pos : 0 < gp_Resolution.
Proof. unfold gp_Resolution; apply Rinv_0_lt_compat, pow_lt; lra. Qed.

Lemma gp_Resolution_lt_1 : gp_Resolution < 1.
Proof.
  unfold gp_Resolution; rewrite <- Rinv_1; apply Rinv_lt_contravar.
  - rewrite Rmult_1_l; apply pow_lt; lra.
  - apply Rlt_pow_R1; [lra | lia].
Qed.

Lemma pdot_nonneg (v : pnt2) : 0 <= pdot v v.
Proof. destruct v; unfold pdot; simpl; nra. Qed.

Lemma pmagnitude_sq (v : pnt2) : pmagnitude v * pmagnitude v = pdot v v.
Proof. unfold pmagnitude; apply sqrt_sqrt, pdot_nonneg. Qed.

Lemma Normalize_Ret (v u : pnt2) :
  Normalize v = Ret u -> gp_Resolution < pmagnitude v /\ u = pscale (/ pmagnitude v) v.
Proof.
  unfold Normalize; destruct (Rle_dec _ _) as [|Hn]; [discriminate|].
  intros H; injection H as <-; split; [lra | reflexivity].
Qed.

Lemma Normalize_unit (v u : pnt2) : Normalize v = Ret u -> pdot u u = 1.
Proof.
  intros H; apply Normalize_Ret in H as [Hm ->].
  pose proof gp_Resolution_pos as Hr. pose proof (pmagnitude_sq v) as Hs.
  set (m := pmagnitude v) in *.
  transitivity (/ m * / m * pdot v v).
  - destruct v; unfold pdot, pscale; simpl; ring.
  - rewrite <- Hs; field; lra.
Qed.

Lemma pmagnitude_unit (u : pnt2) : pdot u u = 1 -> pmagnitude u = 1.
Proof. intros H; unfold pmagnitude; rewrite H; apply sqrt_1. Qed.

Lemma lagrange2 (u w : pnt2) : pdot u w ^ 2 + pcross u w ^ 2 = pdot u u * pdot w w.
Proof. destruct u, w; unfold pdot, pcross; simpl; ring. Qed.

Lemma cos_asin_abs (c s : R) : c ^ 2 + s ^ 2 = 1 -> cos (asin s) = Rabs c.
Proof.
  intros H. rewrite cos_asin by (split; nra).
  replace (1 - s²) with (c²) by (unfold Rsqr; nra).
  apply sqrt_Rsqr_abs.
Qed.

Lemma angle_of_spec (c s : R) :
  c ^ 2 + s ^ 2 = 1 -> cos (angle_of c s) = c /\ Rabs (angle_of c s) <= 2 * PI.
Proof.
  intros H. pose proof PI_RGT_0 as Hpi.
  assert (Hc : -1 <= c <= 1) by (split; nra).
  pose proof (acos_bound c) as Hac. pose proof (asin_bound s) as Has.
  assert (Hpos : 0 < c -> cos (asin s) = c)
    by (intros; rewrite (cos_asin_abs c s H); apply Rabs_right; lra).
  assert (Hneg : ~ 0 < c -> cos (PI - asin s) = c /\ cos (- PI - asin s) = c).
  { intros Hn. rewrite cos_minus, cos_PI, sin_PI.
    replace (- PI - asin s) with (- (PI + asin s)) by ring.
    rewrite cos_neg, cos_plus, cos_PI, sin_PI.
    rewrite (cos_asin_abs c s H), Rabs_left1 by lra. split; ring. }
  unfold angle_of;
  repeat match goal with |- context [Rlt_dec ?a ?b] => destruct (Rlt_dec a b) end;
  try (destruct (Hneg ltac:(assumption)) as [Hn1 Hn2]);
  first [ rewrite cos_neg, cos_acos by exact Hc | rewrite cos_acos by exact Hc
        | rewrite Hpos by assumption | rewrite Hn1 | rewrite Hn2 ];
  split; try reflexivity; apply Rabs_le; lra.
Qed.

Lemma Angle_Ret (u w : pnt2) (A : R) :
  pdot u u = 1 -> pdot w w = 1 -> Angle u w = Ret A ->
  cos A = pdot u w /\ Rabs A <= 2 * PI.
Proof.
  intros Hu Hw H. unfold Angle in H.
  rewrite (pmagnitude_unit u Hu), (pmagnitude_unit w Hw) in H.
  pose proof gp_Resolution_lt_1.
  destruct (Rle_dec 1 gp_Resolution); [lra|].
  injection H as <-.
  replace (pdot u w / (1 * 1)) with (pdot u w) by field.
  replace (pcross u w / (1 * 1)) with (pcross u w) by field.
  apply angle_of_spec. rewrite lagrange2, Hu, Hw; ring.
Qed.

(** The half-angle sine used for the centre offset. *)
Lemma half_angle_sin (A c : R) :
  cos A = c -> Rabs A <= 2 * PI ->
  0 <= sin (Rabs A / 2) /\ sin (Rabs A / 2) * sin (Rabs A / 2) = (1 - c) / 2.
Proof.
  intros Hc Hb. pose proof (Rabs_pos A).
  split.
  - apply sin_ge_0; lra.
  - pose proof (cos_2a_sin (Rabs A / 2)) as E.
    replace (2 * (Rabs A / 2)) with (Rabs A) in E by field.
    assert (cos (Rabs A) = c).
    { destruct (Rcase_abs A); [rewrite Rabs_left, cos_neg | rewrite Rabs_right]; lra. }
    lra.
Qed.

Lemma perp_sq (u x : pnt2) :
  pdot u u = 1 ->
  pdot (psub x (pscale (pdot x u) u)) (psub x (pscale (pdot x u) u)) = pcross u x ^ 2.
Proof.
  intros Hu.
  assert (E : pdot (psub x (pscale (pdot x u) u)) (psub x (pscale (pdot x u) u)) - pcross u x ^ 2
              = (1 - pdot u u) * (pdot x x - pdot x u ^ 2))
    by (destruct u, x; unfold pdot, pcross, psub, pscale; simpl; ring).
  rewrite Hu in E; lra.
Qed.

Lemma fillet_tangent_Ret (e : SketchElement) (u C t : pnt2) (r : R) :
  0 < r -> pdot u u = 1 ->
  pcross u (psub C (start_point e)) ^ 2 = r ^ 2 ->
  fillet_tangent e u C r = Ret t ->
  pcross u (psub t (start_point e)) = 0 /\ pdot (psub t C) (psub t C) = r ^ 2.
Proof.
  intros Hr Hu Hx H. unfold fillet_tangent in H.
  set (P := start_point e) in *.
  destruct (Normalize _) as [tf|] eqn:Hn; simpl in H; [|discriminate].
  injection H as <-. apply Normalize_Ret in Hn as [_ Htf].
  set (x := psub C P) in *.
  assert (Hv : psub C (padd P (pscale (pdot x u) u)) = psub x (pscale (pdot x u) u))
    by (subst x; destruct C, P, u; unfold psub, padd, pscale; simpl; apply pnt2_eq; ring).
  rewrite Hv in Htf.
  set (v := psub x (pscale (pdot x u) u)) in *.
  assert (Hvv : pdot v v = r ^ 2) by (subst v; rewrite perp_sq by exact Hu; exact Hx).
  assert (Hm : pmagnitude v = r).
  { unfold pmagnitude; rewrite Hvv; replace (r ^ 2) with (r * r) by ring; apply sqrt_square; lra. }
  rewrite Hm in Htf; subst tf.
  assert (Ht : psub C (pscale r (pscale (/ r) v)) = psub (psub C v) origin2)
    by (destruct C, v; unfold psub, pscale, origin2; simpl; apply pnt2_eq; field; lra).
  rewrite Ht. subst v x.
  destruct C as [c1 c2], P as [p1 p2], u as [a b]; unfold pdot, pcross, psub, pscale, origin2 in *; simpl in *.
  split.
  - ring.
  - rewrite <- Hvv; ring.
Qed.

Lemma bisector_cross (u w : pnt2) :
  pdot u u = 1 -> pdot w w = 1 -> pcross u w <> 0 -> 0 < pmagnitude (padd u w) ->
  pcross u (pscale (/ pmagnitude (padd u w)) (padd u w)) ^ 2 = (1 - pdot u w) / 2 /\
  pcross w (pscale (/ pmagnitude (padd u w)) (padd u w)) ^ 2 = (1 - pdot u w) / 2.
Proof.
  intros Hu Hw Hs Hm.
  pose proof (pmagnitude_sq (padd u w)) as Hmm.
  pose proof (lagrange2 u w) as Hl. rewrite Hu, Hw in Hl.
  set (m := pmagnitude (padd u w)) in *.
  set (c := pdot u w) in *. set (s := pcross u w) in *.
  assert (Hs2 : 0 < s ^ 2) by (replace (s ^ 2) with (s * s) by ring; apply Rsqr_pos_lt; exact Hs).
  assert (Hc : -1 < c) by nra.
  assert (Hm2 : m * m = 2 + 2 * c).
  { rewrite Hmm. transitivity (pdot u u + 2 * pdot u w + pdot w w).
    - destruct u, w; unfold pdot, padd; simpl; ring.
    - rewrite Hu, Hw; subst c; ring. }
  assert (E1 : pcross u (pscale (/ m) (padd u w)) = / m * s)
    by (subst s; destruct u, w; unfold pcross, pscale, padd; simpl; ring).
  assert (E2 : pcross w (pscale (/ m) (padd u w)) = - (/ m * s))
    by (subst s; destruct u, w; unfold pcross, pscale, padd; simpl; ring).
  rewrite E1, E2.
  assert (Hsq : (/ m * s) ^ 2 = (1 - c) / 2).
  { replace ((/ m * s) ^ 2) with (s ^ 2 / (m * m)) by (field; lra).
    rewrite Hm2. replace (s ^ 2) with ((1 - c) * (1 + c)) by nra. field; lra. }
  split; [exact Hsq | rewrite <- Hsq; ring].
Qed.

Lemma offset_cross (uu b I P : pnt2) (r S c : R) :
  pcross uu b ^ 2 = (1 - c) / 2 -> S * S = (1 - c) / 2 -> S <> 0 ->
  pcross uu (psub I P) = 0 ->
  pcross uu (psub (padd I (pscale (r / S) b)) P) ^ 2 = r ^ 2.
Proof.
  intros Hb HS HS0 HI.
  replace (pcross uu (psub (padd I (pscale (r / S) b)) P))
    with (pcross uu (psub I P) + r / S * pcross uu b)
    by (destruct uu, b, I, P; unfold pcross, psub, padd, pscale; simpl; ring).
  rewrite HI, Rplus_0_l.
  replace ((r / S * pcross uu b) ^ 2) with (r ^ 2 / (S * S) * pcross uu b ^ 2) by (field; exact HS0).
  rewrite Hb, HS; field. intro H0. apply HS0. assert (S * S = 0) by (rewrite HS; lra). nra.
Qed.

Lemma cross_line_of_unit (D x : pnt2) :
  0 < pmagnitude D -> pcross (pscale (/ pmagnitude D) D) x = 0 -> pcross D x = 0.
Proof.
  intros Hm H. set (m := pmagnitude D) in *.
  replace (pcross D x) with (m * pcross (pscale (/ m) D) x)
    by (destruct D, x; unfold pcross, pscale; simpl; field; lra).
  rewrite H; ring.
Qed.

(** Facts of a successful line-line intersection. *)
Lemma getElementIntersection_Some (s : Sketch) (id1 id2 : string) (e1 e2 : SketchElement) (I : pnt2) :
  find_element (elements s) id1 = Some e1 -> find_element (elements s) id2 = Some e2 ->
  getElementIntersection s id1 id2 = Some I ->
  is_line e1 = true /\ is_line e2 = true /\
  pcross (psub (end_point e1) (start_point e1)) (psub (end_point e2) (start_point e2)) <> 0 /\
  pcross (psub (end_point e1) (start_point e1)) (psub I (start_point e1)) = 0 /\
  pcross (psub (end_point e2) (start_point e2)) (psub I (start_point e2)) = 0.
Proof.
  intros H1 H2 H. unfold getElementIntersection in H; rewrite H1, H2 in H.
  destruct (is_line e1) eqn:L1, (is_line e2) eqn:L2; simpl in H; try discriminate.
  destruct e1 as [t1 i1 [a1 b1] [c1 d1] q1 r1 f1], e2 as [t2 i2 [a2 b2] [c2 d2] q2 r2 f2];
  simpl in *.
  destruct (Rlt_dec _ _) as [|Hdet]; [discriminate|].
  injection H as <-.
  assert (Hd : (c1 - a1) * (d2 - b2) - (d1 - b1) * (c2 - a2) <> 0).
  { intros E; apply Hdet; rewrite E, Rabs_R0; lra. }
  unfold pcross, psub; simpl.
  repeat split; try reflexivity; [exact Hd | field; exact Hd | field; exact Hd].
Qed.

Lemma fillet_center_cross (P1 P2 D1 D2 I u w b C : pnt2) (A r : R) :
  0 < pmagnitude D1 -> 0 < pmagnitude D2 -> pcross D1 D2 <> 0 ->
  pcross D1 (psub I P1) = 0 -> pcross D2 (psub I P2) = 0 ->
  u = pscale (/ pmagnitude D1) D1 -> w = pscale (/ pmagnitude D2) D2 ->
  0 < pmagnitude (padd u w) -> b = pscale (/ pmagnitude (padd u w)) (padd u w) ->
  Angle u w = Ret A -> C = padd I (pscale (r / sin (Rabs A / 2)) b) ->
  pdot u u = 1 /\ pdot w w = 1 /\
  pcross u (psub C P1) ^ 2 = r ^ 2 /\ pcross w (psub C P2) ^ 2 = r ^ 2.
Proof.
  intros M1 M2 Hdet HI1 HI2 Eu Ew Mb Eb HA EC.
  assert (Uu : pdot u u = 1).
  { subst u. pose proof (pmagnitude_sq D1).
    transitivity (/ pmagnitude D1 * / pmagnitude D1 * pdot D1 D1);
      [destruct D1; unfold pdot, pscale; simpl; ring | rewrite <- H; field; lra]. }
  assert (Uw : pdot w w = 1).
  { subst w. pose proof (pmagnitude_sq D2).
    transitivity (/ pmagnitude D2 * / pmagnitude D2 * pdot D2 D2);
      [destruct D2; unfold pdot, pscale; simpl; ring | rewrite <- H; field; lra]. }
  destruct (Angle_Ret u w A Uu Uw HA) as [Hcos Hbound].
  destruct (half_angle_sin A (pdot u w) Hcos Hbound) as [HS0 HS2].
  assert (Hs : pcross u w <> 0).
  { replace (pcross u w) with (/ pmagnitude D1 * / pmagnitude D2 * pcross D1 D2)
      by (subst u w; destruct D1, D2; unfold pcross, pscale; simpl; ring).
    apply Rmult_integral_contrapositive_currified; [|exact Hdet].
    apply Rmult_integral_contrapositive_currified; apply Rinv_neq_0_compat; lra. }
  pose proof (lagrange2 u w) as Hl. rewrite Uu, Uw in Hl.
  assert (HSpos : sin (Rabs A / 2) <> 0).
  { intros E. rewrite E in HS2.
    assert (pcross u w ^ 2 > 0) by (replace (pcross u w ^ 2) with (pcross u w * pcross u w) by ring;
                                    apply Rsqr_pos_lt; exact Hs).
    nra. }
  destruct (bisector_cross u w Uu Uw Hs Mb) as [Bu Bw].
  rewrite <- Eb in Bu, Bw. subst C.
  repeat split; try assumption.
  - apply (offset_cross u _ I _ r _ (pdot u w) Bu HS2 HSpos).
    replace (pcross u (psub I P1)) with (/ pmagnitude D1 * pcross D1 (psub I P1))
      by (subst u; destruct D1; unfold pcross, pscale; simpl; ring).
    rewrite HI1; ring.
  - apply (offset_cross w _ I _ r _ (pdot u w) Bw HS2 HSpos).
    replace (pcross w (psub I P2)) with (/ pmagnitude D2 * pcross D2 (psub I P2))
      by (subst w; destruct D2; unfold pcross, pscale; simpl; ring).
    rewrite HI2; ring.
Qed.

(** C3: when [addFillet] succeeds (non-empty id) on two elements with a
    positive radius, both elements are Lines, the fillet is appended, each
    stored tangent point is at distance exactly [radius] from the stored
    centre, and each lies on the infinite line of its source Line. *)
Theorem addFillet_tangent_points (s s' : Sketch) (id1 id2 fid : string) (radius : R)
  (Hr : 0 < radius) (Hok : addFillet s id1 id2 radius = Ret (s', fid)) (Hid : fid <> ""%string) :
  exists l1 l2 f,
    find_element (elements s) id1 = Some l1 /\ find_element (elements s) id2 = Some l2 /\
    etype l1 = LINE /\ etype l2 = LINE /\
    elements s' = elements s ++ [f] /\ etype f = FILLET /\ parameters f = [radius] /\
    pdist2 (start_point f) (center_point f) = radius ^ 2 /\
    pdist2 (end_point f) (center_point f) = radius ^ 2 /\
    on_line l1 (start_point f) /\ on_line l2 (end_point f).
Proof.
  unfold addFillet in Hok.
  destruct (find_element (elements s) id1) as [e1|] eqn:F1; [|injection Hok as _ <-; contradiction].
  destruct (find_element (elements s) id2) as [e2|] eqn:F2; [|injection Hok as _ <-; contradiction].
  destruct (getElementIntersection s id1 id2) as [I|] eqn:HI; [|injection Hok as _ <-; contradiction].
  destruct (getElementIntersection_Some s id1 id2 e1 e2 I F1 F2 HI) as (L1 & L2 & Hdet & HI1 & HI2).
  rewrite L1, L2 in Hok; simpl in Hok.
  destruct (Normalize (psub (end_point e1) (start_point e1))) as [u|] eqn:Nu; simpl in Hok; [|discriminate].
  destruct (Normalize (psub (end_point e2) (start_point e2))) as [w|] eqn:Nw; simpl in Hok; [|discriminate].
  destruct (Normalize (padd u w)) as [b|] eqn:Nb; simpl in Hok; [|discriminate].
  destruct (Angle u w) as [A|] eqn:HA; simpl in Hok; [|discriminate].
  set (C := padd I (pscale (radius / sin (Rabs A / 2)) b)) in Hok.
  destruct (fillet_tangent e1 u C radius) as [t1|] eqn:T1; simpl in Hok; [|discriminate].
  destruct (fillet_tangent e2 w C radius) as [t2|] eqn:T2; simpl in Hok; [|discriminate].
  injection Hok as <- <-.
  pose proof gp_Resolution_pos as Hres.
  apply Normalize_Ret in Nu as [Mu Eu]. apply Normalize_Ret in Nw as [Mw Ew].
  apply Normalize_Ret in Nb as [Mb Eb].
  destruct (fillet_center_cross (start_point e1) (start_point e2)
              (psub (end_point e1) (start_point e1)) (psub (end_point e2) (start_point e2))
              I u w b C A radius ltac:(lra) ltac:(lra) Hdet HI1 HI2
              Eu Ew ltac:(lra) Eb HA eq_refl) as (Uu & Uw & Cu & Cw).
  destruct (fillet_tangent_Ret e1 u C t1 radius Hr Uu Cu T1) as [On1 Di1].
  destruct (fillet_tangent_Ret e2 w C t2 radius Hr Uw Cw T2) as [On2 Di2].
  exists e1, e2, (mkElement FILLET (next_id "Fillet_" s) t1 t2 C [radius] [id1; id2]).
  unfold is_line in L1, L2.
  repeat split; try reflexivity; try assumption.
  - destruct (etype e1); try discriminate; reflexivity.
  - destruct (etype e2); try discriminate; reflexivity.
  - unfold on_line; apply cross_line_of_unit; [lra | rewrite <- Eu; exact On1].
  - unfold on_line; apply cross_line_of_unit; [lra | rewrite <- Ew; exact On2].
Qed.

(** ** When a fillet is built *)

Lemma pmagnitude_ge_1 (v : pnt2) : 1 <= pdot v v -> gp_Resolution < pmagnitude v.
Proof.
  intros H. pose proof gp_Resolution_lt_1.
  assert (1 <= pmagnitude v) by (unfold pmagnitude; rewrite <- sqrt_1; apply sqrt_le_1_alt; lra).
  lra.
Qed.

Lemma Normalize_total (v : pnt2) :
  gp_Resolution < pmagnitude v -> Normalize v = Ret (pscale (/ pmagnitude v) v).
Proof. intros H; unfold Normalize; destruct (Rle_dec _ _); [lra | reflexivity]. Qed.

Lemma Angle_total (u w : pnt2) : pdot u u = 1 -> pdot w w = 1 -> exists A, Angle u w = Ret A.
Proof.
  intros Hu Hw. pose proof gp_Resolution_lt_1.
  unfold Angle; rewrite (pmagnitude_unit u Hu), (pmagnitude_unit w Hw).
  destruct (Rle_dec 1 gp_Resolution); [lra|]. eexists; reflexivity.
Qed.

Lemma fillet_tangent_total (e : SketchElement) (u C : pnt2) (r : R) :
  gp_Resolution < r -> pdot u u = 1 -> pcross u (psub C (start_point e)) ^ 2 = r ^ 2 ->
  exists t, fillet_tangent e u C r = Ret t.
Proof.
  intros Hr Hu Hx. pose proof gp_Resolution_pos. unfold fillet_tangent.
  set (P := start_point e) in *. set (x := psub C P) in *.
  assert (Hv : psub C (padd P (pscale (pdot x u) u)) = psub x (pscale (pdot x u) u))
    by (subst x; destruct C, P, u; unfold psub, padd, pscale; simpl; apply pnt2_eq; ring).
  rewrite Hv.
  assert (Hm : pmagnitude (psub x (pscale (pdot x u) u)) = r).
  { unfold pmagnitude; rewrite perp_sq by exact Hu; rewrite Hx.
    replace (r ^ 2) with (r * r) by ring; apply sqrt_square; lra. }
  rewrite Normalize_total by lra. eexists; reflexivity.
Qed.

(** With a null radius the centre sits on both lines, so the vector from
    the projection to the centre is null and its normalisation raises. *)
Lemma fillet_tangent_zero (e : SketchElement) (u C : pnt2) :
  pdot u u = 1 -> pcross u (psub C (start_point e)) = 0 ->
  exists m, fillet_tangent e u C 0 = Throw m.
Proof.
  intros Hu Hx. pose proof gp_Resolution_pos. unfold fillet_tangent.
  set (P := start_point e) in *. set (x := psub C P) in *.
  assert (Hv : psub C (padd P (pscale (pdot x u) u)) = psub x (pscale (pdot x u) u))
    by (subst x; destruct C, P, u; unfold psub, padd, pscale; simpl; apply pnt2_eq; ring).
  rewrite Hv.
  assert (Hm : pmagnitude (psub x (pscale (pdot x u) u)) = 0).
  { unfold pmagnitude; rewrite perp_sq by exact Hu; rewrite Hx.
    replace (0 ^ 2) with 0 by ring; apply sqrt_0. }
  unfold Normalize; rewrite Hm. destruct (Rle_dec 0 gp_Resolution); [|lra].
  eexists; reflexivity.
Qed.

Lemma next_id_nonempty (prefix : string) (s : Sketch) :
  prefix <> ""%string -> next_id prefix s <> ""%string.
Proof. destruct prefix; [congruence|]. intros _; unfold next_id; simpl; discriminate. Qed.

(** Two found, perpendicular Lines of length at least 1 that meet: the
    fillet is built and appended under [next_id "Fillet_" s]. *)
Lemma addFillet_total (s : Sketch) (id1 id2 : string) (r : R) (e1 e2 : SketchElement) (I : pnt2) :
  find_element (elements s) id1 = Some e1 -> find_element (elements s) id2 = Some e2 ->
  getElementIntersection s id1 id2 = Some I -> gp_Resolution < r ->
  1 <= pdot (psub (end_point e1) (start_point e1)) (psub (end_point e1) (start_point e1)) ->
  1 <= pdot (psub (end_point e2) (start_point e2)) (psub (end_point e2) (start_point e2)) ->
  pdot (psub (end_point e1) (start_point e1)) (psub (end_point e2) (start_point e2)) = 0 ->
  exists t1 t2 C,
    addFillet s id1 id2 r =
    Ret (push_element s (mkElement FILLET (next_id "Fillet_" s) t1 t2 C [r] [id1; id2]),
         next_id "Fillet_" s).
Proof.
  intros F1 F2 HI Hr G1 G2 Hperp. pose proof gp_Resolution_pos as Hres.
  destruct (getElementIntersection_Some s id1 id2 e1 e2 I F1 F2 HI) as (L1 & L2 & Hdet & HI1 & HI2).
  set (D1 := psub (end_point e1) (start_point e1)) in *.
  set (D2 := psub (end_point e2) (start_point e2)) in *.
  pose proof (pmagnitude_ge_1 D1 G1) as M1. pose proof (pmagnitude_ge_1 D2 G2) as M2.
  set (u := pscale (/ pmagnitude D1) D1). set (w := pscale (/ pmagnitude D2) D2).
  assert (Uu : pdot u u = 1) by (apply (Normalize_unit D1); apply Normalize_total; exact M1).
  assert (Uw : pdot w w = 1) by (apply (Normalize_unit D2); apply Normalize_total; exact M2).
  assert (UW : pdot u w = 0).
  { replace (pdot u w) with (/ pmagnitude D1 * / pmagnitude D2 * pdot D1 D2)
      by (subst u w; destruct D1, D2; unfold pdot, pscale; simpl; ring).
    rewrite Hperp; ring. }
  assert (Mb : gp_Resolution < pmagnitude (padd u w)).
  { apply pmagnitude_ge_1.
    replace (pdot (padd u w) (padd u w)) with (pdot u u + 2 * pdot u w + pdot w w)
      by (destruct u, w; unfold pdot, padd; simpl; ring).
    lra. }
  destruct (Angle_total u w Uu Uw) as [A HA].
  set (b := pscale (/ pmagnitude (padd u w)) (padd u w)).
  set (C := padd I (pscale (r / sin (Rabs A / 2)) b)).
  destruct (fillet_center_cross (start_point e1) (start_point e2) D1 D2 I u w b C A r
              ltac:(lra) ltac:(lra) Hdet HI1 HI2 eq_refl eq_refl ltac:(lra) eq_refl HA eq_refl)
    as (_ & _ & Cu & Cw).
  destruct (fillet_tangent_total e1 u C r Hr Uu Cu) as [t1 T1].
  destruct (fillet_tangent_total e2 w C r Hr Uw Cw) as [t2 T2].
  exists t1, t2, C.
  unfold addFillet; rewrite F1, F2, HI, L1, L2; simpl andb; cbv iota beta.
  fold D1 D2. rewrite (Normalize_total D1 M1); simpl bind. fold u.
  rewrite (Normalize_total D2 M2); simpl bind. fold w.
  rewrite (Normalize_total (padd u w) Mb); simpl bind. fold b.
  rewrite HA; simpl bind. fold C. rewrite T1; simpl bind. rewrite T2; simpl bind.
  reflexivity.
Qed.

Lemma corner_find_1 :
  find_element (elements corner_sketch) "Line_1"%string = Some (mkElement LINE "Line_1"%string (P2 0 0) (P2 10 0) origin2 [] []).
Proof. reflexivity. Qed.

Lemma corner_find_2 :
  find_element (elements corner_sketch) "Line_2"%string = Some (mkElement LINE "Line_2"%string (P2 10 0) (P2 10 10) origin2 [] []).
Proof. reflexivity. Qed.

Lemma corner_intersection : exists I, getElementIntersection corner_sketch "Line_1"%string "Line_2"%string = Some I.
Proof.
  unfold getElementIntersection; rewrite corner_find_1, corner_find_2; simpl.
  destruct (Rlt_dec _ _) as [H|H].
  - exfalso. replace ((10 - 0) * (10 - 0) - (0 - 0) * (10 - 10)) with 100 in H by ring.
    rewrite Rabs_right in H by lra. lra.
  - eexists; reflexivity.
Qed.

(** The fillet of radius [r] on the corner is built as ["Fillet_3"%string]. *)
Lemma corner_fillet (r : R) :
  gp_Resolution < r ->
  exists t1 t2 C,
    addFillet corner_sketch "Line_1"%string "Line_2"%string r =
    Ret (push_element corner_sketch (mkElement FILLET "Fillet_3"%string t1 t2 C [r] ["Line_1"%string; "Line_2"%string]),
         "Fillet_3"%string).
Proof.
  intros Hr. destruct corner_intersection as [I HI].
  exact (addFillet_total corner_sketch "Line_1"%string "Line_2"%string r _ _ I corner_find_1 corner_find_2 HI Hr
           ltac:(unfold pdot, psub; cbn; nra) ltac:(unfold pdot, psub; cbn; nra) ltac:(unfold pdot, psub; cbn; nra)).
Qed.

(** C3 at the corner of two perpendicular lines with radius 2. *)
Lemma addFillet_tangent_points_witness :
  exists s', 0 < 2 /\ addFillet corner_sketch "Line_1" "Line_2" 2 = Ret (s', "Fillet_3"%string) /\
    "Fillet_3"%string <> ""%string /\
    exists l1 l2 f,
      find_element (elements corner_sketch) "Line_1" = Some l1 /\
      find_element (elements corner_sketch) "Line_2" = Some l2 /\
      etype l1 = LINE /\ etype l2 = LINE /\
      elements s' = elements corner_sketch ++ [f] /\ etype f = FILLET /\ parameters f = [2] /\
      pdist2 (start_point f) (center_point f) = 2 ^ 2 /\
      pdist2 (end_point f) (center_point f) = 2 ^ 2 /\
      on_line l1 (start_point f) /\ on_line l2 (end_point f).
Proof.
  destruct (corner_fillet 2 ltac:(pose proof gp_Resolution_lt_1; lra)) as (t1 & t2 & C & H).
  eexists. split; [lra|]. split; [exact H|]. split; [discriminate|].
  exact (addFillet_tangent_points corner_sketch _ "Line_1" "Line_2" "Fillet_3" 2
           ltac:(lra) H ltac:(discriminate)).
Defined.

(** C8 on the XY plane through the origin. *)
Lemma plane_roundtrip_witness :
  canonical_type XY = true /\
  (forall q, to2D xy_plane (to3D xy_plane q) = q) /\
  (forall p, on_plane xy_plane p -> to3D xy_plane (to2D xy_plane p) = p).
Proof. split; [reflexivity | exact (plane_roundtrip XY (V3 0 0 0) eq_refl)]. Defined.

(** ** Wire assembly of a filleted sketch *)

Lemma filleted_ids_flat_map (els : list SketchElement) :
  filleted_ids els = flat_map referenced_elements (filter is_fillet els).
Proof. induction els as [|e els IH]; simpl; [reflexivity|]. destruct (is_fillet e); simpl; rewrite IH; reflexivity. Qed.

Lemma unfilleted_edges_flat_map `{K : Kernel} (pl : SketchPlane) (F : list string) (els : list SketchElement) :
  unfilleted_edges pl F els =
  flat_map (edges_of pl) (filter (fun e => negb (is_fillet e) && negb (string_mem (id e) F)) els).
Proof.
  induction els as [|e els IH]; simpl; [reflexivity|].
  destruct (negb (is_fillet e) && negb (string_mem (id e) F)); simpl; rewrite IH; reflexivity.
Qed.

Lemma fillet_edges_flat_map `{K : Kernel} (pl : SketchPlane) (els : list SketchElement) :
  fillet_edges pl els = flat_map (edges_of pl) (filter is_fillet els).
Proof. induction els as [|e els IH]; simpl; [reflexivity|]. destruct (is_fillet e); simpl; rewrite IH; reflexivity. Qed.

(** C4 (amended): when the sketch holds a fillet, the edges given to the
    wire builder are, in order, the edges of the non-fillet elements whose
    id no fillet references, then the fillet arcs; an element referenced by
    a fillet contributes no edge at all. *)
Theorem createWire_fillet_order `{K : Kernel} (s : Sketch) :
  existsb is_fillet (elements s) = true ->
  wire_edges s =
  Some (flat_map (edges_of (sketch_plane s))
          (filter (fun e => negb (is_fillet e) &&
                            negb (string_mem (id e) (flat_map referenced_elements (filter is_fillet (elements s)))))
             (elements s))
        ++ flat_map (edges_of (sketch_plane s)) (filter is_fillet (elements s))).
Proof.
  intros H. unfold wire_edges; rewrite H.
  rewrite unfilleted_edges_flat_map, fillet_edges_flat_map, filleted_ids_flat_map. reflexivity.
Qed.

Lemma createWire_fillet_order_witness :
  exists s', (exists t1 t2 C, s' = push_element corner_sketch
                 (mkElement FILLET "Fillet_3" t1 t2 C [2] ["Line_1"; "Line_2"]%string) /\
                 addFillet corner_sketch "Line_1" "Line_2" 2 = Ret (s', "Fillet_3"%string)) /\
    existsb is_fillet (elements s') = true /\
    @wire_edges kernel_ok s' =
    Some (flat_map (@edges_of kernel_ok (sketch_plane s'))
            (filter (fun e => negb (is_fillet e) &&
                              negb (string_mem (id e) (flat_map referenced_elements (filter is_fillet (elements s')))))
               (elements s'))
          ++ flat_map (@edges_of kernel_ok (sketch_plane s')) (filter is_fillet (elements s'))).
Proof.
  destruct (corner_fillet 2 ltac:(pose proof gp_Resolution_lt_1; lra)) as (t1 & t2 & C & H).
  eexists. split; [exists t1, t2, C; split; [reflexivity | exact H]|].
  split; [reflexivity|].
  apply (@createWire_fillet_order kernel_ok). reflexivity.
Defined.

(** C4 does not hold as stated: after filleting the corner, the wire holds
    the fillet arc only; neither full original line is among its edges. *)
Lemma createWire_fillet_drops_lines :
  exists s' es,
    addFillet corner_sketch "Line_1" "Line_2" 2 = Ret (s', "Fillet_3"%string) /\
    @wire_edges kernel_ok s' = Some es /\ List.length es = 1%nat /\
    ~ In (SegmentEdge (to3D xy_plane (P2 0 0)) (to3D xy_plane (P2 10 0))) es /\
    ~ In (SegmentEdge (to3D xy_plane (P2 10 0)) (to3D xy_plane (P2 10 10))) es.
Proof.
  destruct (corner_fillet 2 ltac:(pose proof gp_Resolution_lt_1; lra)) as (t1 & t2 & C & H).
  do 2 eexists. split; [exact H|]. split; [reflexivity|]. split; [reflexivity|].
  split; simpl; intros [E|[]]; discriminate.
Qed.

(** ** Failure of [addFillet] *)

Lemma getElementIntersection_lines (s : Sketch) (id1 id2 : string) (e1 e2 : SketchElement) :
  find_element (elements s) id1 = Some e1 -> find_element (elements s) id2 = Some e2 ->
  is_line e1 && is_line e2 = true ->
  (Rabs (line_det e1 e2) < 1e-10 -> getElementIntersection s id1 id2 = None) /\
  (~ Rabs (line_det e1 e2) < 1e-10 -> exists I, getElementIntersection s id1 id2 = Some I).
Proof.
  intros F1 F2 L. unfold getElementIntersection; rewrite F1, F2, L.
  change (x2 (psub (end_point e1) (start_point e1)) * y2 (psub (end_point e2) (start_point e2)) -
          y2 (psub (end_point e1) (start_point e1)) * x2 (psub (end_point e2) (start_point e2)))
    with (line_det e1 e2).
  split; intros H; destruct (Rlt_dec _ _); try contradiction; [reflexivity | eexists; reflexivity].
Qed.

(** C5: [addFillet] returns the failure [(s, "")] (empty id, sketch
    unchanged) when an element is not found, when the pair is not
    Line-Line, or when the two lines are parallel ([|det| < 1e-10]);
    otherwise it never returns an empty id: it appends a Fillet under the
    non-empty id [next_id "Fillet_" s], or the kernel's normalisation
    raises. *)
Theorem addFillet_failure_cases (s : Sketch) (id1 id2 : string) (radius : R) :
  ((find_element (elements s) id1 = None \/ find_element (elements s) id2 = None \/
    exists e1 e2, find_element (elements s) id1 = Some e1 /\ find_element (elements s) id2 = Some e2 /\
      (is_line e1 && is_line e2 = false \/ Rabs (line_det e1 e2) < 1e-10)) ->
   addFillet s id1 id2 radius = Ret (s, ""%string)) /\
  (forall e1 e2, find_element (elements s) id1 = Some e1 -> find_element (elements s) id2 = Some e2 ->
     is_line e1 && is_line e2 = true -> ~ Rabs (line_det e1 e2) < 1e-10 ->
     (exists f, addFillet s id1 id2 radius = Ret (push_element s f, next_id "Fillet_" s) /\
        next_id "Fillet_" s <> ""%string /\ etype f = FILLET /\ referenced_elements f = [id1; id2]) \/
     (exists msg, addFillet s id1 id2 radius = Throw msg)).
Proof.
  split.
  - intros [F|[F|(e1 & e2 & F1 & F2 & [L|P])]]; unfold addFillet.
    + rewrite F; reflexivity.
    + destruct (find_element (elements s) id1); rewrite ?F; reflexivity.
    + rewrite F1, F2. destruct (getElementIntersection s id1 id2); [rewrite L|]; reflexivity.
    + rewrite F1, F2.
      destruct (is_line e1 && is_line e2) eqn:L.
      * destruct (getElementIntersection_lines s id1 id2 e1 e2 F1 F2 L) as [HN _].
        rewrite (HN P); reflexivity.
      * destruct (getElementIntersection s id1 id2); reflexivity.
  - intros e1 e2 F1 F2 L P.
    destruct (getElementIntersection_lines s id1 id2 e1 e2 F1 F2 L) as [_ HS].
    destruct (HS P) as [I HI].
    unfold addFillet; rewrite F1, F2, HI, L.
    repeat match goal with
           | |- context [bind ?m _] =>
               destruct m; cbn [bind]; [| right; eexists; reflexivity]
           end.
    left; eexists; split; [reflexivity|].
    split; [apply next_id_nonempty; discriminate | split; reflexivity].
Qed.

(** The fillet of radius 0 at the corner raises. *)
Lemma corner_fillet_zero : exists msg, addFillet corner_sketch "Line_1" "Line_2" 0 = Throw msg.
Proof.
  destruct corner_intersection as [I HI].
  destruct (getElementIntersection_Some _ _ _ _ _ I corner_find_1 corner_find_2 HI) as (_ & _ & _ & HI1 & _).
  unfold addFillet; rewrite corner_find_1, corner_find_2, HI; simpl andb; cbv iota beta.
  set (D1 := psub (end_point (mkElement LINE "Line_1" (P2 0 0) (P2 10 0) origin2 [] []))
                  (start_point (mkElement LINE "Line_1" (P2 0 0) (P2 10 0) origin2 [] []))) in *.
  assert (M1 : gp_Resolution < pmagnitude D1) by (apply pmagnitude_ge_1; unfold D1, pdot, psub; cbn; nra).
  rewrite (Normalize_total D1 M1); cbn [bind].
  set (u := pscale (/ pmagnitude D1) D1).
  assert (Uu : pdot u u = 1) by (apply (Normalize_unit D1); apply Normalize_total; exact M1).
  repeat match goal with
         | |- context [bind (Normalize ?v) _] => destruct (Normalize v); cbn [bind]; [|eexists; reflexivity]
         | |- context [bind (Angle ?a ?b) _] => destruct (Angle a b); cbn [bind]; [|eexists; reflexivity]
         end.
  match goal with |- context [fillet_tangent ?e u ?C 0] =>
    destruct (fillet_tangent_zero e u C Uu) as [m Hm] end.
  - simpl start_point.
    match goal with |- pcross u (psub (padd I (pscale (0 / ?S) ?b)) ?P) = 0 =>
      replace (pcross u (psub (padd I (pscale (0 / S) b)) P)) with
        (/ pmagnitude D1 * pcross D1 (psub I P) + 0 / S * pcross u b)
        by (unfold u; destruct D1, I, b, P; unfold pcross, psub, padd, pscale; simpl; ring)
    end.
    simpl start_point in HI1. rewrite HI1. unfold Rdiv; ring.
  - rewrite Hm; eexists; reflexivity.
Qed.

(** C5 on the corner: a missing id fails; the radius-0 fillet raises. *)
Lemma addFillet_failure_cases_witness :
  addFillet corner_sketch "Line_1" "Line_9" 2 = Ret (corner_sketch, ""%string).
Proof.
  apply (proj1 (addFillet_failure_cases corner_sketch "Line_1" "Line_9" 2)).
  right; left; reflexivity.
Defined.

(** ** Element identifiers *)

(** C6 fails on the code: after [Line_1] is removed, the next line is
    numbered from [elements_.size() + 1] again and reuses [Line_2]. *)
Theorem element_ids_collide :
  exists s', run_ops empty_xy_sketch remove_then_add = Ret s' /\
    element_ids s' = ["Line_2"; "Line_2"]%string /\ ~ NoDup (element_ids s').
Proof.
  eexists. split; [reflexivity|]. split; [reflexivity|].
  cbn. intros H. inversion H as [|x l Hx Hl]. apply Hx. left; reflexivity.
Qed.

(** ** Extrude execution *)

Lemma vmagnitude_z : vmagnitude (V3 0 0 1) = 1.
Proof. unfold vmagnitude, vdot; simpl. replace (0 * 0 + 0 * 0 + 1 * 1) with 1 by ring. apply sqrt_1. Qed.

Lemma vmagnitude_x : vmagnitude (V3 1 0 0) = 1.
Proof. unfold vmagnitude, vdot; simpl. replace (1 * 1 + 0 * 0 + 0 * 0) with 1 by ring. apply sqrt_1. Qed.

Ltac decide_reals :=
  repeat match goal with
         | |- context [Rle_dec ?a ?b] => destruct (Rle_dec a b); try lra
         | |- context [Rlt_dec ?a ?b] => destruct (Rlt_dec a b); try lra
         end.

Lemma blind_validation_agrees `{K : Kernel} (f : ExtrudeFeature) :
  ptype (fparams f) = THROUGH_ALL \/ ptype (fparams f) = TO_SURFACE -> 0 < distance (fparams f) ->
  feature_validation_errors f = feature_validation_errors (as_blind f).
Proof.
  intros Ht Hd. unfold feature_validation_errors, as_blind, set_params, set_type; cbn.
  destruct (Rle_dec (distance (fparams f)) 0); [lra|].
  destruct Ht as [Ht|Ht]; rewrite Ht; reflexivity.
Qed.

Lemma blind_validation_rejects `{K : Kernel} (f : ExtrudeFeature) :
  distance (fparams f) <= 0 -> canExtrude (as_blind f) = false.
Proof.
  intros Hd. unfold canExtrude, feature_validation_errors, as_blind, set_params, set_type; cbn.
  destruct (Rle_dec (distance (fparams f)) 0); [|lra]. cbn.
  destruct (base_sketch f) as [s|], (face_to_extrude f); try reflexivity;
    destruct (sketch_isValid s); reflexivity.
Qed.

(** C9 (amended): with a positive distance, ThroughAll and ToSurface
    execute exactly as Blind with the same parameters (same validation,
    shape, validity flag and return value; the feature differs only in its
    stored type). With a distance [<= 0], Blind is rejected by validation
    while ThroughAll and ToSurface skip that check (their validation does
    not depend on the distance) and [execute] runs the blind sweep
    [performBlindExtrude], whose vector is scaled by that non-positive
    distance. *)
Theorem through_all_as_blind `{K : Kernel} (f : ExtrudeFeature) :
  ptype (fparams f) = THROUGH_ALL \/ ptype (fparams f) = TO_SURFACE ->
  (0 < distance (fparams f) ->
     canExtrude f = canExtrude (as_blind f) /\
     result_shape (fst (execute f)) = result_shape (fst (execute (as_blind f))) /\
     is_valid (fst (execute f)) = is_valid (fst (execute (as_blind f))) /\
     snd (execute f) = snd (execute (as_blind f)) /\
     fst (execute f) = set_params (fst (execute (as_blind f))) (fparams f)) /\
  (distance (fparams f) <= 0 ->
     canExtrude (as_blind f) = false /\ snd (execute (as_blind f)) = false /\
     (forall d', feature_validation_errors (set_params f (set_distance (fparams f) d')) =
                 feature_validation_errors f) /\
     execute f =
       (if canExtrude f then
          match performBlindExtrude f with
          | Throw _ => (set_result f (result_shape f) false, false)
          | Ret sh =>
              let v := match sh with Some x => shape_valid x | None => false end in
              (set_result f sh v, v)
          end
        else (set_result f (result_shape f) false, false)) /\
     blind_vector f =
       (if reverse_direction (fparams f) then vscale (-1) (vscale (distance (fparams f)) (calculateExtrudeDirection f))
        else vscale (distance (fparams f)) (calculateExtrudeDirection f))).
Proof.
  intros Ht. split.
  - intros Hd.
    assert (Hc : canExtrude f = canExtrude (as_blind f))
      by (unfold canExtrude; rewrite (blind_validation_agrees f Ht Hd); reflexivity).
    assert (Hp : performBlindExtrude (as_blind f) = performBlindExtrude f) by reflexivity.
    assert (He : execute f = (set_params (fst (execute (as_blind f))) (fparams f), snd (execute (as_blind f)))).
    { unfold execute. rewrite <- Hc. cbn [fparams as_blind set_params set_type ptype].
      destruct (canExtrude f); cbn [negb].
      - destruct Ht as [Ht|Ht]; rewrite Ht; rewrite Hp;
          destruct (performBlindExtrude f); reflexivity.
      - reflexivity. }
    rewrite He. cbn. repeat split; assumption || reflexivity.
  - intros Hd. pose proof (blind_validation_rejects f Hd) as Hr. split; [exact Hr|].
    split; [unfold execute; rewrite Hr; reflexivity|].
    split.
    + intros d'. unfold feature_validation_errors, set_params, set_distance;
        cbn [fparams ptype distance distance1 distance2 direction base_sketch face_to_extrude].
      destruct Ht as [Ht|Ht]; rewrite Ht; cbn [ExtrudeType_eqb];
        repeat match goal with |- context [Rle_dec ?a ?b] => destruct (Rle_dec a b) end; reflexivity.
    + split; [|reflexivity].
      unfold execute. destruct (canExtrude f); cbn [negb]; [|reflexivity].
      destruct Ht as [Ht|Ht]; rewrite Ht; reflexivity.
Qed.

Lemma through_all_as_blind_witness :
  (ptype (fparams (circle_feature (through_all_params 10))) = THROUGH_ALL \/
   ptype (fparams (circle_feature (through_all_params 10))) = TO_SURFACE) /\
  0 < distance (fparams (circle_feature (through_all_params 10))) /\
  snd (@execute kernel_ok (circle_feature (through_all_params 10)))
  = snd (@execute kernel_ok (as_blind (circle_feature (through_all_params 10)))).
Proof.
  split; [left; reflexivity|]. split; [cbn; lra|].
  apply (proj1 (@through_all_as_blind kernel_ok (circle_feature (through_all_params 10)) (or_introl eq_refl)) ltac:(cbn; lra)).
Defined.

(** C9 does not hold as stated: with distance [-1] a ThroughAll feature on
    a valid circle sketch executes and succeeds, while Blind with the same
    parameters fails validation. *)
Lemma through_all_negative_distance :
  snd (@execute kernel_ok (circle_feature (through_all_params (-1)))) = true /\
  snd (@execute kernel_ok (as_blind (circle_feature (through_all_params (-1))))) = false.
Proof.
  unfold execute, canExtrude, feature_validation_errors, as_blind, circle_feature,
    through_all_params, set_params, set_type; cbn.
  rewrite vmagnitude_z. decide_reals; split; reflexivity.
Qed.

(** C1 fails on the code: [performSymmetricExtrude] adds [distance1 * dir]
    and [-distance2 * dir], so a successful symmetric extrude sweeps the
    face by [(distance1 - distance2) * dir] along the resolved direction,
    not by [distance1 + distance2]. *)
Theorem symmetric_sweep_vector `{K : Kernel} (f f' : ExtrudeFeature) :
  ptype (fparams f) = SYMMETRIC -> execute f = (f', true) ->
  exists fc, result_shape f' =
    Some (Prism fc (vscale (distance1 (fparams f) - distance2 (fparams f)) (calculateExtrudeDirection f))).
Proof.
  intros Ht Hx. unfold execute in Hx.
  destruct (canExtrude f); cbn [negb] in Hx; [|discriminate].
  rewrite Ht in Hx. unfold performSymmetricExtrude, make_prism in Hx.
  destruct (feature_face f) as [fc|]; [|discriminate].
  destruct (prism_outcome fc (symmetric_vector f)); try discriminate.
  destruct (shape_valid (Prism fc (symmetric_vector f))); [|discriminate].
  injection Hx as <-. exists fc. cbn. f_equal. f_equal.
  unfold symmetric_vector. destruct (calculateExtrudeDirection f).
  unfold vadd, vscale; cbn. apply vec3_eq; ring.
Qed.

Lemma symmetric_circle_executes :
  exists f', @execute kernel_ok (circle_feature symmetric_params) = (f', true).
Proof.
  unfold execute, canExtrude, feature_validation_errors, circle_feature, symmetric_params; cbn.
  rewrite vmagnitude_z. decide_reals. eexists; reflexivity.
Qed.

Lemma symmetric_sweep_vector_witness :
  exists f', ptype (fparams (circle_feature symmetric_params)) = SYMMETRIC /\
    @execute kernel_ok (circle_feature symmetric_params) = (f', true) /\
    exists fc, result_shape f' = Some (Prism fc (vscale (5 - 5) (V3 0 0 1))).
Proof.
  destruct symmetric_circle_executes as [f' H].
  exists f'. split; [reflexivity|]. split; [exact H|].
  exact (@symmetric_sweep_vector kernel_ok (circle_feature symmetric_params) f' eq_refl H).
Defined.

(** The default symmetric distances 5 and 5 sweep the face by the null
    vector, where [distance1 + distance2 = 10] is expected. *)
Lemma symmetric_default_sweep_null :
  exists f' fc, @execute kernel_ok (circle_feature symmetric_params) = (f', true) /\
    result_shape f' = Some (Prism fc (V3 0 0 0)).
Proof.
  unfold execute, canExtrude, feature_validation_errors, circle_feature, symmetric_params; cbn.
  rewrite vmagnitude_z. decide_reals. do 2 eexists. split; [reflexivity|].
  cbn. unfold symmetric_vector, vadd, vscale; cbn. repeat f_equal; ring.
Qed.

(** ** Extrude direction *)

(** C2 (amended): the resolved direction is the base sketch's plane
    normal, else the normal of the face's plane, else [(0, 0, 1)]; the
    [direction] parameter plays no part in it, nor in either sweep vector
    (it is only checked by validation: the validation errors depend on it
    only through the test [|direction| < 1e-6], and a feature with a sketch
    or a face whose direction fails that test cannot be extruded). *)
Theorem extrude_direction_resolution `{K : Kernel} (f : ExtrudeFeature) (d : vec3) :
  calculateExtrudeDirection f =
    match base_sketch f with
    | Some s => normal (sketch_plane s)
    | None => match feature_plane f with Some pl => normal pl | None => V3 0 0 1 end
    end /\
  calculateExtrudeDirection (set_params f (set_direction (fparams f) d)) = calculateExtrudeDirection f /\
  blind_vector (set_params f (set_direction (fparams f) d)) = blind_vector f /\
  symmetric_vector (set_params f (set_direction (fparams f) d)) = symmetric_vector f /\
  (forall d', (vmagnitude d < 1e-6 <-> vmagnitude d' < 1e-6) ->
     feature_validation_errors (set_params f (set_direction (fparams f) d)) =
     feature_validation_errors (set_params f (set_direction (fparams f) d'))) /\
  (base_sketch f <> None \/ face_to_extrude f <> None -> vmagnitude d < 1e-6 ->
     canExtrude (set_params f (set_direction (fparams f) d)) = false).
Proof.
  split; [reflexivity|]. split; [reflexivity|]. split; [reflexivity|]. split; [reflexivity|].
  split.
  - intros d' Hiff. unfold feature_validation_errors; cbn [set_params set_direction fparams direction ptype
      distance distance1 distance2 base_sketch face_to_extrude].
    destruct (Rlt_dec (vmagnitude d) 1e-6), (Rlt_dec (vmagnitude d') 1e-6);
      first [reflexivity | exfalso; tauto].
  - intros Hbf Hd. unfold canExtrude, feature_validation_errors;
      cbn [set_params set_direction fparams direction ptype distance distance1 distance2
           base_sketch face_to_extrude].
    destruct (Rlt_dec (vmagnitude d) 1e-6) as [_|h]; [|lra].
    destruct (base_sketch f), (face_to_extrude f);
      try (destruct Hbf as [Hbf|Hbf]; exfalso; apply Hbf; reflexivity);
      rewrite !app_assoc; match goal with |- context [?l ++ [?x]] => destruct l; reflexivity end.
Qed.

Lemma extrude_direction_resolution_witness :
  vmagnitude (V3 0 0 0) < 1e-6 /\
  @canExtrude kernel_ok (set_params (circle_feature sideways_params) (set_direction (fparams (circle_feature sideways_params)) (V3 0 0 0))) = false.
Proof.
  assert (H0 : vmagnitude (V3 0 0 0) < 1e-6).
  { unfold vmagnitude, vdot; simpl.
    replace (0 * 0 + 0 * 0 + 0 * 0) with 0 by ring; rewrite sqrt_0; lra. }
  split; [exact H0|].
  apply (proj2 (proj2 (proj2 (proj2 (proj2 (@extrude_direction_resolution kernel_ok (circle_feature sideways_params) (V3 0 0 0)))))));
    [left; discriminate|exact H0].
Defined.

(** C2 does not hold as stated: an explicit unit direction [(1, 0, 0)] on
    an XY sketch is ignored; the resolved direction is [(0, 0, 1)]. *)
Lemma explicit_direction_ignored :
  vmagnitude (direction (fparams (circle_feature sideways_params))) = 1 /\
  calculateExtrudeDirection (circle_feature sideways_params) = V3 0 0 1 /\
  calculateExtrudeDirection (circle_feature sideways_params) <> direction (fparams (circle_feature sideways_params)).
Proof.
  split; [exact vmagnitude_x|]. split; [reflexivity|].
  cbn. intros H. injection H as H1 _. lra.
Qed.

(** ** The unused direction argument of the engine *)

(** C10: [extrudeSketch] and [extrudeSketchElement] never read their
    direction string: calls that differ only in it give the same session
    and the same returned id. *)
Theorem extrude_ignores_direction_string `{K : Kernel} (e : Engine) (now : nat) (sid eid : string)
  (dist : R) (dir1 dir2 : string) :
  extrudeSketch e now sid dist dir1 = extrudeSketch e now sid dist dir2 /\
  extrudeSketchElement e now sid eid dist dir1 = extrudeSketchElement e now sid eid dist dir2.
Proof. split; reflexivity. Qed.

(** * Further properties of the sketch, plane, feature and session code *)

(** ** Element lookup after removal and after the authoring calls *)

Lemma find_element_filter (els : list SketchElement) (i j : string) :
  find_element (filter (fun e => negb (String.eqb (id e) i)) els) j =
  if String.eqb j i then None else find_element els j.
Proof.
  induction els as [|e rest IH]; simpl.
  - destruct (String.eqb j i); reflexivity.
  - destruct (String.eqb (id e) i) eqn:Ei; simpl.
    + rewrite IH. apply String.eqb_eq in Ei.
      destruct (String.eqb j i) eqn:Ej; [reflexivity|].
      destruct (find_element rest j); [reflexivity|].
      destruct (String.eqb (id e) j) eqn:Eej; [|reflexivity].
      apply String.eqb_eq in Eej; apply String.eqb_neq in Ej; congruence.
    + rewrite IH. destruct (String.eqb j i) eqn:Ej; [|reflexivity].
      apply String.eqb_eq in Ej; subst j; rewrite Ei; reflexivity.
Qed.

(** [Sketch::removeElement] followed by the last-match lookup of
    [addFillet] / [isElementsConnected]: the removed id is gone, every other
    id resolves as before. *)
Theorem removeElement_lookup (s : Sketch) (i j : string) :
  find_element (elements (removeElement s i)) i = None /\
  (j <> i -> find_element (elements (removeElement s i)) j = find_element (elements s) j).
Proof.
  unfold removeElement, with_elements; simpl; split.
  - rewrite find_element_filter, String.eqb_refl; reflexivity.
  - intros Hji; rewrite find_element_filter.
    apply String.eqb_neq in Hji; rewrite Hji; reflexivity.
Qed.

Lemma removeElement_lookup_witness :
  find_element (elements (removeElement corner_sketch "Line_1")) "Line_1" = None /\
  find_element (elements (removeElement corner_sketch "Line_1")) "Line_2" =
  find_element (elements corner_sketch) "Line_2".
Proof.
  split; [apply (removeElement_lookup corner_sketch "Line_1" "Line_2")|].
  apply (removeElement_lookup corner_sketch "Line_1" "Line_2"); discriminate.
Defined.

Lemma find_element_app_last (l : list SketchElement) (e : SketchElement) :
  find_element (l ++ [e]) (id e) = Some e.
Proof.
  induction l as [|a l IH]; simpl.
  - rewrite String.eqb_refl; reflexivity.
  - rewrite IH; reflexivity.
Qed.

(** The four authoring calls append one element carrying the returned id,
    keep the rest of the sketch, and the last-match lookup of that id finds
    the new element. *)
Theorem add_element_lookup (s s' : Sketch) (i : string) (st en c : pnt2) (r w h : R) :
  addLine s st en = (s', i) \/ addCircle s c r = (s', i) \/
  addRectangle s c w h = (s', i) \/ addArc s c st en r = (s', i) ->
  exists e, elements s' = elements s ++ [e] /\ id e = i /\
    sketch_plane s' = sketch_plane s /\ sketch_id s' = sketch_id s /\
    find_element (elements s') i = Some e.
Proof.
  intros [H|[H|[H|H]]]; injection H as <- <-; eexists;
    refine (conj eq_refl (conj eq_refl (conj eq_refl (conj eq_refl _))));
    apply (find_element_app_last _ (mkElement _ _ _ _ _ _ _)).
Qed.

Lemma add_element_lookup_witness :
  exists e, elements (fst (addLine corner_sketch (P2 10 10) (P2 0 10))) = elements corner_sketch ++ [e] /\
    id e = "Line_3"%string /\
    sketch_plane (fst (addLine corner_sketch (P2 10 10) (P2 0 10))) = sketch_plane corner_sketch /\
    sketch_id (fst (addLine corner_sketch (P2 10 10) (P2 0 10))) = sketch_id corner_sketch /\
    find_element (elements (fst (addLine corner_sketch (P2 10 10) (P2 0 10)))) "Line_3" = Some e.
Proof.
  apply (add_element_lookup corner_sketch _ "Line_3" (P2 10 10) (P2 0 10) (P2 0 0) 1 1 1).
  left; reflexivity.
Defined.

(** ** Decimal ids *)

Lemma string_app_assoc (a b c : string) : ((a ++ b) ++ c)%string = (a ++ (b ++ c))%string.
Proof. induction a as [|x a IH]; simpl; [reflexivity|rewrite IH; reflexivity]. Qed.

Lemma string_app_inv_head (p a b : string) : (p ++ a)%string = (p ++ b)%string -> a = b.
Proof. induction p as [|x p IH]; simpl; [auto|intros H; injection H; auto]. Qed.

Lemma string_app_single_inj (X Y : string) (a b : ascii) :
  (X ++ String a "")%string = (Y ++ String b "")%string -> X = Y /\ a = b.
Proof.
  revert Y; induction X as [|x X IH]; intros Y H; destruct Y as [|y Y]; simpl in H.
  - injection H; auto.
  - injection H as _ H; destruct Y; discriminate.
  - injection H as _ H; destruct X; discriminate.
  - injection H as -> H; destruct (IH Y H) as [-> ->]; auto.
Qed.

Lemma digits_aux_app (f n : nat) (acc : string) :
  digits_aux f n acc = (digits_aux f n "" ++ acc)%string.
Proof.
  revert n acc; induction f as [|f IH]; intros n acc; cbn [digits_aux]; [reflexivity|].
  destruct (Nat.ltb n 10); [reflexivity|].
  rewrite IH, (IH (n / 10)%nat (String _ "")), string_app_assoc; reflexivity.
Qed.

Lemma digits_aux_fuel (f1 f2 n : nat) (acc : string) :
  (n < f1)%nat -> (n < f2)%nat -> digits_aux f1 n acc = digits_aux f2 n acc.
Proof.
  revert f2 n acc; induction f1 as [|f1 IH]; intros f2 n acc H1 H2; [lia|].
  destruct f2 as [|f2]; [lia|]; cbn [digits_aux].
  destruct (Nat.ltb n 10) eqn:E; [reflexivity|].
  apply Nat.ltb_ge in E.
  assert ((n / 10 < n)%nat) by (apply Nat.div_lt; lia).
  apply IH; lia.
Qed.

Lemma nat_to_string_lt10 (n : nat) :
  (n < 10)%nat -> nat_to_string n = String (ascii_of_nat (48 + n)) "".
Proof.
  intros H; unfold nat_to_string; cbn [digits_aux].
  rewrite Nat.mod_small by exact H.
  replace (Nat.ltb n 10) with true by (symmetry; apply Nat.ltb_lt; exact H); reflexivity.
Qed.

Lemma nat_to_string_ge10 (n : nat) :
  (10 <= n)%nat ->
  nat_to_string n = (nat_to_string (n / 10) ++ String (ascii_of_nat (48 + n mod 10)) "")%string.
Proof.
  intros H; unfold nat_to_string at 1; cbn [digits_aux].
  replace (Nat.ltb n 10) with false by (symmetry; apply Nat.ltb_ge; exact H).
  rewrite digits_aux_app; f_equal.
  unfold nat_to_string; apply digits_aux_fuel; [|lia].
  apply Nat.div_lt; lia.
Qed.

Lemma nat_to_string_nonempty (n : nat) : nat_to_string n <> ""%string.
Proof.
  destruct (Nat.lt_ge_cases n 10) as [H|H].
  - rewrite nat_to_string_lt10 by exact H; discriminate.
  - rewrite nat_to_string_ge10 by exact H.
    destruct (nat_to_string (n / 10)); discriminate.
Qed.

Lemma digit_inj (a b : nat) :
  (a < 10)%nat -> (b < 10)%nat -> ascii_of_nat (48 + a) = ascii_of_nat (48 + b) -> a = b.
Proof.
  intros Ha Hb H.
  apply (f_equal nat_of_ascii) in H.
  rewrite !nat_ascii_embedding in H by lia; lia.
Qed.

Lemma nat_to_string_inj (n m : nat) : nat_to_string n = nat_to_string m -> n = m.
Proof.
  revert m; induction n as [n IH] using (well_founded_induction Wf_nat.lt_wf); intros m H.
  destruct (Nat.lt_ge_cases n 10) as [Hn|Hn]; destruct (Nat.lt_ge_cases m 10) as [Hm|Hm].
  - rewrite (nat_to_string_lt10 n Hn), (nat_to_string_lt10 m Hm) in H.
    injection H as H; apply digit_inj; assumption.
  - rewrite (nat_to_string_lt10 n Hn), (nat_to_string_ge10 m Hm) in H.
    pose proof (nat_to_string_nonempty (m / 10)) as Hne.
    destruct (nat_to_string (m / 10)) as [|c X]; [congruence|].
    simpl in H; injection H as _ H; destruct X; discriminate.
  - rewrite (nat_to_string_ge10 n Hn), (nat_to_string_lt10 m Hm) in H.
    pose proof (nat_to_string_nonempty (n / 10)) as Hne.
    destruct (nat_to_string (n / 10)) as [|c X]; [congruence|].
    simpl in H; injection H as _ H; destruct X; discriminate.
  - rewrite (nat_to_string_ge10 n Hn), (nat_to_string_ge10 m Hm) in H.
    apply string_app_single_inj in H as [Hq Hr].
    apply IH in Hq; [|apply Nat.div_lt; lia].
    apply digit_inj in Hr; [|apply Nat.mod_upper_bound; lia|apply Nat.mod_upper_bound; lia].
    rewrite (Nat.div_mod_eq n 10), (Nat.div_mod_eq m 10); lia.
Qed.

(** ** Ids stay distinct as long as nothing is removed *)

Lemma addFillet_shape (s s' : Sketch) (id1 id2 fid : string) (r : R) :
  addFillet s id1 id2 r = Ret (s', fid) ->
  (s' = s /\ fid = ""%string) \/
  exists e, s' = push_element s e /\ id e = next_id "Fillet_" s /\ fid = next_id "Fillet_" s.
Proof.
  intros H; unfold addFillet in H.
  destruct (find_element (elements s) id1) as [e1|]; [|injection H as <- <-; left; auto].
  destruct (find_element (elements s) id2) as [e2|]; [|injection H as <- <-; left; auto].
  destruct (getElementIntersection s id1 id2) as [I|]; [|injection H as <- <-; left; auto].
  destruct (is_line e1 && is_line e2); [|injection H as <- <-; left; auto].
  unfold bind in H.
  repeat match type of H with
  | context [match ?m with Ret _ => _ | Throw _ => _ end] => destruct m; [cbv beta in H|discriminate]
  end.
  injection H as <- <-; right; eexists; split; [reflexivity|]; split; reflexivity.
Qed.

Lemma numbered_push (els : list SketchElement) (e : SketchElement) (p : string) :
  (forall k x, nth_error els k = Some x -> exists q,
     In q ["Line_"; "Circle_"; "Rectangle_"; "Arc_"; "Fillet_"]%string /\ id x = (q ++ nat_to_string (S k))%string) ->
  In p ["Line_"; "Circle_"; "Rectangle_"; "Arc_"; "Fillet_"]%string ->
  id e = (p ++ nat_to_string (List.length els + 1))%string ->
  forall k x, nth_error (els ++ [e]) k = Some x -> exists q,
     In q ["Line_"; "Circle_"; "Rectangle_"; "Arc_"; "Fillet_"]%string /\ id x = (q ++ nat_to_string (S k))%string.
Proof.
  intros Hels Hp He k x Hk.
  destruct (Nat.lt_ge_cases k (List.length els)) as [Hlt|Hge].
  - rewrite nth_error_app1 in Hk by exact Hlt; exact (Hels k x Hk).
  - rewrite nth_error_app2 in Hk by exact Hge.
    destruct (k - List.length els)%nat as [|j] eqn:Ej; simpl in Hk.
    + injection Hk as <-; exists p; split; [exact Hp|].
      rewrite He; do 2 f_equal; lia.
    + destruct j; discriminate.
Qed.

Lemma run_op_numbered (s s' : Sketch) (op : SketchOp) :
  (forall j, op <> OpRemove j) ->
  (forall k x, nth_error (elements s) k = Some x -> exists q,
     In q ["Line_"; "Circle_"; "Rectangle_"; "Arc_"; "Fillet_"]%string /\ id x = (q ++ nat_to_string (S k))%string) ->
  run_op s op = Ret s' ->
  forall k x, nth_error (elements s') k = Some x -> exists q,
     In q ["Line_"; "Circle_"; "Rectangle_"; "Arc_"; "Fillet_"]%string /\ id x = (q ++ nat_to_string (S k))%string.
Proof.
  intros Hop Hs H.
  destruct op as [st en|c r|c w h|c st en r|i1 i2 r|i]; simpl in H.
  - injection H as <-; apply (numbered_push _ _ "Line_"); [exact Hs|simpl; tauto|reflexivity].
  - injection H as <-; apply (numbered_push _ _ "Circle_"); [exact Hs|simpl; tauto|reflexivity].
  - injection H as <-; apply (numbered_push _ _ "Rectangle_"); [exact Hs|simpl; tauto|reflexivity].
  - injection H as <-; apply (numbered_push _ _ "Arc_"); [exact Hs|simpl; tauto|reflexivity].
  - unfold bind in H; destruct (addFillet s i1 i2 r) as [[s'' fid]|m] eqn:F; [|discriminate].
    injection H as <-.
    destruct (addFillet_shape _ _ _ _ _ _ F) as [[-> _]|[e [-> [He _]]]]; [exact Hs|].
    apply (numbered_push _ _ "Fillet_"); [exact Hs|simpl; tauto|exact He].
  - exfalso; exact (Hop i eq_refl).
Qed.

Lemma run_ops_numbered (s s' : Sketch) (ops : list SketchOp) :
  (forall j, ~ In (OpRemove j) ops) ->
  (forall k x, nth_error (elements s) k = Some x -> exists q,
     In q ["Line_"; "Circle_"; "Rectangle_"; "Arc_"; "Fillet_"]%string /\ id x = (q ++ nat_to_string (S k))%string) ->
  run_ops s ops = Ret s' ->
  forall k x, nth_error (elements s') k = Some x -> exists q,
     In q ["Line_"; "Circle_"; "Rectangle_"; "Arc_"; "Fillet_"]%string /\ id x = (q ++ nat_to_string (S k))%string.
Proof.
  revert s; induction ops as [|op ops IH]; intros s Hops Hs H; simpl in H.
  - injection H as <-; exact Hs.
  - unfold bind in H; destruct (run_op s op) as [s1|m] eqn:E; [|discriminate].
    apply (IH s1); [intros j Hj; apply (Hops j); right; exact Hj| |exact H].
    apply (run_op_numbered s s1 op); [|exact Hs|exact E].
    intros j ->; apply (Hops j); left; reflexivity.
Qed.

Lemma prefixed_inj (p q a b : string) :
  In p ["Line_"; "Circle_"; "Rectangle_"; "Arc_"; "Fillet_"]%string ->
  In q ["Line_"; "Circle_"; "Rectangle_"; "Arc_"; "Fillet_"]%string ->
  (p ++ a)%string = (q ++ b)%string -> a = b.
Proof.
  intros Hp Hq H; simpl in Hp, Hq.
  destruct Hp as [<-|[<-|[<-|[<-|[<-|[]]]]]]; destruct Hq as [<-|[<-|[<-|[<-|[<-|[]]]]]];
    first [exact (string_app_inv_head _ _ _ H) | simpl in H; discriminate].
Qed.

(** Without removals, every id an authoring call or a fillet gives is
    distinct: the ids of the sketch built by any operation sequence without
    [removeElement] from a new sketch have no duplicate. *)
Theorem ids_unique_without_removal (pl : SketchPlane) (i : string) (now : nat)
  (ops : list SketchOp) (s' : Sketch) :
  (forall j, ~ In (OpRemove j) ops) ->
  run_ops (new_Sketch pl i now) ops = Ret s' ->
  NoDup (element_ids s').
Proof.
  intros Hops H.
  pose proof (run_ops_numbered (new_Sketch pl i now) s' ops Hops) as Hn.
  assert (Hnum : forall k x, nth_error (elements s') k = Some x -> exists q,
     In q ["Line_"; "Circle_"; "Rectangle_"; "Arc_"; "Fillet_"]%string /\ id x = (q ++ nat_to_string (S k))%string).
  { apply Hn; [|exact H]. intros k x Hk; destruct k; discriminate. }
  unfold element_ids; apply NoDup_nth_error; intros a b Ha Hab.
  rewrite length_map in Ha.
  destruct (nth_error (elements s') a) as [xa|] eqn:Ea;
    [|apply nth_error_None in Ea; lia].
  rewrite !nth_error_map, Ea in Hab.
  destruct (nth_error (elements s') b) as [xb|] eqn:Eb; [|discriminate].
  injection Hab as Hab.
  destruct (Hnum a xa Ea) as [qa [Hqa Hia]]; destruct (Hnum b xb Eb) as [qb [Hqb Hib]].
  rewrite Hia, Hib in Hab.
  apply prefixed_inj in Hab; [|exact Hqa|exact Hqb].
  apply nat_to_string_inj in Hab; lia.
Qed.

Lemma ids_unique_without_removal_witness :
  NoDup (element_ids (fst (addCircle (fst (addLine empty_xy_sketch (P2 0 0) (P2 1 0))) (P2 0 0) 1))).
Proof.
  apply (ids_unique_without_removal xy_plane "Sketch_1" 0
           [OpLine (P2 0 0) (P2 1 0); OpCircle (P2 0 0) 1]).
  - intros j Hj; simpl in Hj; destruct Hj as [Hj|[Hj|[]]]; discriminate.
  - reflexivity.
Defined.

(** ** Connectivity and closedness of sketches *)

Lemma Distance_sym (p q : pnt2) : Distance p q = Distance q p.
Proof. unfold Distance, pmagnitude, pdot, psub; simpl; f_equal; ring. Qed.

Lemma Distance_self (p : pnt2) : Distance p p = 0.
Proof.
  unfold Distance, pmagnitude, pdot, psub; simpl.
  replace (_ * _ + _ * _) with 0 by ring; exact sqrt_0.
Qed.

Lemma Rltb_tolerance : Rltb 0 1e-6 = true.
Proof. unfold Rltb; destruct (Rlt_dec 0 1e-6); [reflexivity|lra]. Qed.

(** [Sketch::isElementsConnected] does not depend on the order of its two
    ids, only ever holds between two Line elements that exist, and holds
    whenever the two lines share an endpoint exactly. *)
Theorem isElementsConnected_props (s : Sketch) (id1 id2 : string) :
  isElementsConnected s id1 id2 = isElementsConnected s id2 id1 /\
  (isElementsConnected s id1 id2 = true ->
   exists e1 e2, find_element (elements s) id1 = Some e1 /\ find_element (elements s) id2 = Some e2 /\
     is_line e1 = true /\ is_line e2 = true) /\
  (forall e1 e2, find_element (elements s) id1 = Some e1 -> find_element (elements s) id2 = Some e2 ->
   is_line e1 = true -> is_line e2 = true ->
   start_point e1 = start_point e2 \/ start_point e1 = end_point e2 \/
   end_point e1 = start_point e2 \/ end_point e1 = end_point e2 ->
   isElementsConnected s id1 id2 = true).
Proof.
  split; [|split].
  - unfold isElementsConnected; cbv zeta.
    destruct (find_element (elements s) id1) as [e1|], (find_element (elements s) id2) as [e2|];
      try reflexivity.
    rewrite (andb_comm (is_line e2)).
    destruct (is_line e1 && is_line e2); [|reflexivity].
    rewrite (Distance_sym (start_point e2) (start_point e1)), (Distance_sym (start_point e2) (end_point e1)),
      (Distance_sym (end_point e2) (start_point e1)), (Distance_sym (end_point e2) (end_point e1)).
    destruct (Rltb (Distance (start_point e1) (start_point e2)) 1e-6),
      (Rltb (Distance (start_point e1) (end_point e2)) 1e-6),
      (Rltb (Distance (end_point e1) (start_point e2)) 1e-6),
      (Rltb (Distance (end_point e1) (end_point e2)) 1e-6); reflexivity.
  - unfold isElementsConnected; cbv zeta.
    destruct (find_element (elements s) id1) as [e1|], (find_element (elements s) id2) as [e2|];
      try discriminate.
    destruct (is_line e1) eqn:L1, (is_line e2) eqn:L2; simpl; try discriminate.
    intros _; exists e1, e2; auto.
  - intros e1 e2 F1 F2 L1 L2 Hshare.
    unfold isElementsConnected; cbv zeta; rewrite F1, F2, L1, L2; simpl.
    destruct Hshare as [E|[E|[E|E]]]; rewrite E, Distance_self, Rltb_tolerance;
      repeat match goal with |- context [Rltb ?a ?b] => destruct (Rltb a b) end; reflexivity.
Qed.

Lemma isElementsConnected_props_witness :
  isElementsConnected corner_sketch "Line_1" "Line_2" = true.
Proof.
  destruct (isElementsConnected_props corner_sketch "Line_1" "Line_2") as [_ [_ H]].
  apply (H (mkElement LINE "Line_1" (P2 0 0) (P2 10 0) origin2 [] [])
           (mkElement LINE "Line_2" (P2 10 0) (P2 10 10) origin2 [] [])); try reflexivity.
  right; right; left; reflexivity.
Defined.

(** [Sketch::isClosed] after [close] and [clearAll]: an empty sketch is
    never closed, not even after [close]; [close] makes any non-empty sketch
    closed, whatever its geometry; a circle makes a sketch closed without
    [close]. *)
Theorem isClosed_close_clearAll (s : Sketch) :
  isClosed (sketch_clearAll s) = false /\
  isClosed (close (sketch_clearAll s)) = false /\
  (isClosed (close s) = true <-> elements s <> []) /\
  (existsb is_circle (elements s) = true -> isClosed s = true).
Proof.
  unfold isClosed, close, sketch_clearAll; simpl.
  split; [reflexivity|]; split; [reflexivity|].
  destruct (elements s) as [|e els]; simpl.
  - split; [split; [discriminate|tauto]|discriminate].
  - split; [split; [discriminate|intros _; destruct (_ || _); reflexivity]|].
    intros H; rewrite H; reflexivity.
Qed.

Lemma isClosed_close_clearAll_witness :
  isClosed circle_sketch = true.
Proof. apply (isClosed_close_clearAll circle_sketch); reflexivity. Defined.

(** [Sketch::getValidationErrors] is empty exactly when [Sketch::isValid]
    holds; an empty sketch gets both messages. *)
Theorem sketch_validation_errors_spec `{K : Kernel} (s : Sketch) :
  (sketch_validation_errors s = [] <-> sketch_isValid s = true) /\
  (elements s = [] -> sketch_validation_errors s = ["Sketch is empty"; "Sketch geometry is invalid"]%string).
Proof.
  unfold sketch_validation_errors.
  destruct (elements s) as [|e els] eqn:E.
  - assert (V : sketch_isValid s = false) by (unfold sketch_isValid; rewrite E; reflexivity).
    rewrite V; split; [split; discriminate|reflexivity].
  - split; [|discriminate].
    destruct (sketch_isValid s); simpl; split; auto; discriminate.
Qed.

Lemma sketch_validation_errors_spec_witness :
  @sketch_validation_errors kernel_ok empty_xy_sketch = ["Sketch is empty"; "Sketch geometry is invalid"]%string.
Proof. apply (sketch_validation_errors_spec (K:=kernel_ok) empty_xy_sketch); reflexivity. Defined.

(** ** Edges built for arcs and fillets *)

(** [createElement2D] on an Arc reads only its radius: the edge is the half
    circle (parameters 0 to pi) of the plane's own frame, so arcs with other
    centres or endpoints and the same radius give the same edge. *)
Theorem arc_edge_ignores_points `{K : Kernel} (pl : SketchPlane) (e1 e2 : SketchElement) :
  etype e1 = ARC -> etype e2 = ARC -> param0 e1 = param0 e2 ->
  createElement2D pl e1 = make_edge (TrimmedArcEdge (coordinate_system pl) (param0 e1) 0 PI) /\
  createElement2D pl e1 = createElement2D pl e2.
Proof.
  intros H1 H2 Hr; unfold createElement2D; rewrite H1, H2, Hr; split; reflexivity.
Qed.

Lemma arc_edge_ignores_points_witness :
  @createElement2D kernel_ok xy_plane (mkElement ARC "Arc_1" (P2 1 0) (P2 (-1) 0) (P2 0 0) [1] []) =
  @make_edge kernel_ok (TrimmedArcEdge (coordinate_system xy_plane) 1 0 PI) /\
  @createElement2D kernel_ok xy_plane (mkElement ARC "Arc_1" (P2 1 0) (P2 (-1) 0) (P2 0 0) [1] []) =
  @createElement2D kernel_ok xy_plane (mkElement ARC "Arc_2" (P2 0 5) (P2 0 0) (P2 5 5) [1] []).
Proof.
  apply (arc_edge_ignores_points (K:=kernel_ok)); reflexivity.
Defined.

Lemma atan2_range (y x : R) : - PI < atan2 y x <= PI.
Proof.
  pose proof PI_RGT_0 as Hpi; unfold atan2.
  destruct (Rlt_dec 0 x) as [Hx|Hx].
  - pose proof (atan_bound (y / x)); lra.
  - destruct (Rlt_dec x 0) as [Hx'|Hx'].
    + assert (Hi : / x < 0) by (apply Rinv_lt_0_compat; exact Hx').
      pose proof (atan_bound (y / x)) as Hb.
      destruct (Rle_dec 0 y) as [Hy|Hy].
      * assert (Hq : y / x <= 0) by (unfold Rdiv; nra).
        assert (Ha : atan (y / x) <= 0).
        { destruct (Req_dec (y / x) 0) as [E|E].
          - rewrite E, atan_0; lra.
          - rewrite <- atan_0; left; apply atan_increasing; lra. }
        lra.
      * assert (Hq : 0 < y / x) by (unfold Rdiv; nra).
        assert (Ha : 0 < atan (y / x)) by (rewrite <- atan_0; apply atan_increasing; exact Hq).
        lra.
    + destruct (Rlt_dec 0 y); [lra|]; destruct (Rlt_dec y 0); lra.
Qed.

(** Every trimmed arc [createElement2D] builds (the half circle of an Arc,
    the arc of a Fillet) sweeps a parameter range in [[0, 2 pi)]: a fillet
    whose end angle is below its start angle is unwrapped by [2 pi]. *)
Theorem createElement2D_arc_range `{K : Kernel} (pl : SketchPlane) (e : SketchElement)
  (cs : gp_Ax2) (r u1 u2 : R) :
  createElement2D pl e = Some (TrimmedArcEdge cs r u1 u2) -> 0 <= u2 - u1 < 2 * PI.
Proof.
  pose proof PI_RGT_0 as Hpi.
  intros H; unfold createElement2D, make_edge in H; destruct (etype e); cbv zeta in H.
  - destruct (edge_done _); discriminate.
  - destruct (edge_done _); discriminate.
  - destruct (edge_done _); [injection H as _ _ <- <-; lra|discriminate].
  - destruct (edge_done _); discriminate.
  - match type of H with context [if edge_done ?a then _ else _] => destruct (edge_done a) end.
    + injection H as _ _ <- <-.
      pose proof (atan2_range (y2 (psub (start_point e) (center_point e))) (x2 (psub (start_point e) (center_point e)))).
      pose proof (atan2_range (y2 (psub (end_point e) (center_point e))) (x2 (psub (end_point e) (center_point e)))).
      cbn [psub x2 y2] in *.
      match goal with |- context [Rlt_dec ?a ?b] => destruct (Rlt_dec a b) end; lra.
    + destruct (edge_done _); discriminate.
Qed.

Lemma createElement2D_arc_range_witness :
  0 <= PI - 0 < 2 * PI.
Proof.
  apply (createElement2D_arc_range (K:=kernel_ok) xy_plane (mkElement ARC "Arc_1" (P2 0 0) (P2 1 0) (P2 (-1) 0) [1] [])
           (coordinate_system xy_plane) 1).
  reflexivity.
Defined.

Lemma edges_of_length `{K : Kernel} (pl : SketchPlane) (e : SketchElement) :
  (List.length (edges_of pl e) <= 1)%nat.
Proof. unfold edges_of; destruct (createElement2D pl e); simpl; lia. Qed.

Lemma fillet_mode_length `{K : Kernel} (pl : SketchPlane) (F : list string) (els : list SketchElement) :
  (List.length (unfilleted_edges pl F els) + List.length (fillet_edges pl els) <= List.length els)%nat.
Proof.
  induction els as [|e rest IH]; simpl; [lia|].
  rewrite !length_app; pose proof (edges_of_length pl e).
  destruct (is_fillet e); simpl; [lia|].
  destruct (string_mem (id e) F); simpl; lia.
Qed.

(** The edges one element adds to the two loops of the fillet case of
    [createWire]. *)
Lemma fillet_mode_perm `{K : Kernel} (pl : SketchPlane) (F : list string) (els : list SketchElement) :
  Permutation (unfilleted_edges pl F els ++ fillet_edges pl els)
    (flat_map (fun e => (if negb (is_fillet e) && negb (string_mem (id e) F) then edges_of pl e else [])
                        ++ (if is_fillet e then edges_of pl e else [])) els).
Proof.
  induction els as [|e rest IH]; simpl; [constructor|].
  rewrite <- !app_assoc. apply Permutation_app_head.
  eapply perm_trans; [apply Permutation_app_swap_app|]. apply Permutation_app_head. exact IH.
Qed.

(** When a sketch contains a fillet, [createWire] hands the wire builder at
    most one edge per element: the edges given are, up to order, the
    contributions of the elements, each at most one edge and taken from the
    element's own [createElement2D] edge. A rectangle therefore contributes
    at most one of its four sides, the one from its corner along the width. *)
Theorem fillet_mode_one_edge_per_element `{K : Kernel} (s : Sketch) (es : list Edge) :
  existsb is_fillet (elements s) = true -> wire_edges s = Some es ->
  exists contrib : SketchElement -> list Edge,
    Permutation es (flat_map contrib (elements s)) /\
    (forall e, (List.length (contrib e) <= 1)%nat /\ incl (contrib e) (edges_of (sketch_plane s) e)) /\
    (forall e, etype e = RECTANGLE -> forall ed, In ed (contrib e) ->
       ed = SegmentEdge (to3D (sketch_plane s) (start_point e))
              (to3D (sketch_plane s) (P2 (x2 (start_point e) + param0 e) (y2 (start_point e))))) /\
    (List.length es <= List.length (elements s))%nat.
Proof.
  intros Hf H; unfold wire_edges in H; rewrite Hf in H; injection H as <-.
  set (pl := sketch_plane s). set (F := filleted_ids (elements s)).
  exists (fun e => (if negb (is_fillet e) && negb (string_mem (id e) F) then edges_of pl e else [])
                   ++ (if is_fillet e then edges_of pl e else [])).
  assert (Hc : forall e, (List.length ((if negb (is_fillet e) && negb (string_mem (id e) F) then edges_of pl e else [])
                   ++ (if is_fillet e then edges_of pl e else [])) <= 1)%nat /\
                 incl ((if negb (is_fillet e) && negb (string_mem (id e) F) then edges_of pl e else [])
                   ++ (if is_fillet e then edges_of pl e else [])) (edges_of pl e)).
  { intros e. pose proof (edges_of_length pl e).
    destruct (is_fillet e); simpl; [split; [exact H|apply incl_refl]|].
    destruct (string_mem (id e) F); simpl; rewrite ?app_nil_r; split; try lia;
      [intros x []|apply incl_refl]. }
  split; [apply fillet_mode_perm|]. split; [exact Hc|]. split.
  - intros e Ht ed Hin. apply (proj2 (Hc e)) in Hin.
    unfold edges_of, createElement2D in Hin. rewrite Ht in Hin. unfold make_edge in Hin.
    destruct (edge_done _) in Hin; simpl in Hin; [destruct Hin as [Hin|[]]; symmetry; exact Hin|destruct Hin].
  - rewrite length_app; apply fillet_mode_length.
Qed.

Lemma fillet_mode_one_edge_per_element_witness :
  exists es, @wire_edges kernel_ok rect_fillet_sketch = Some es /\
  exists contrib : SketchElement -> list Edge,
    Permutation es (flat_map contrib (elements rect_fillet_sketch)) /\
    (forall e, (List.length (contrib e) <= 1)%nat /\
               incl (contrib e) (@edges_of kernel_ok (sketch_plane rect_fillet_sketch) e)) /\
    (forall e, etype e = RECTANGLE -> forall ed, In ed (contrib e) ->
       ed = SegmentEdge (to3D (sketch_plane rect_fillet_sketch) (start_point e))
              (to3D (sketch_plane rect_fillet_sketch) (P2 (x2 (start_point e) + param0 e) (y2 (start_point e))))) /\
    (List.length es <= List.length (elements rect_fillet_sketch))%nat.
Proof.
  eexists; split; [reflexivity|].
  apply (fillet_mode_one_edge_per_element (K:=kernel_ok) rect_fillet_sketch); reflexivity.
Defined.

(** ** First match and last match *)

Lemma find_first_skip (l1 l : list SketchElement) (i : string) :
  (forall e, In e l1 -> id e <> i) -> find_first (l1 ++ l) i = find_first l i.
Proof.
  induction l1 as [|x l1 IH]; intros H; simpl; [reflexivity|].
  destruct (String.eqb (id x) i) eqn:E.
  - apply String.eqb_eq in E; exfalso; apply (H x); [left; reflexivity|exact E].
  - apply IH; intros e He; apply H; right; exact He.
Qed.

Lemma find_element_app (l l' : list SketchElement) (i : string) :
  find_element (l ++ l') i = match find_element l' i with Some x => Some x | None => find_element l i end.
Proof.
  induction l as [|x l IH]; simpl.
  - destruct (find_element l' i); reflexivity.
  - rewrite IH; destruct (find_element l' i); reflexivity.
Qed.

Lemma find_element_none (l : list SketchElement) (i : string) :
  (forall e, In e l -> id e <> i) -> find_element l i = None.
Proof.
  induction l as [|x l IH]; intros H; simpl; [reflexivity|].
  rewrite IH by (intros e He; apply H; right; exact He).
  destruct (String.eqb (id x) i) eqn:E; [|reflexivity].
  apply String.eqb_eq in E; exfalso; apply (H x); [left; reflexivity|exact E].
Qed.

(** When an id is carried by several elements, [createFaceFromElement]
    resolves it to the first of them, while [addFillet],
    [getElementIntersection] and [isElementsConnected] resolve it to the
    last. *)
Theorem duplicate_id_lookups (l1 mid l3 : list SketchElement) (a b : SketchElement) (i : string) :
  id a = i -> id b = i ->
  (forall e, In e l1 -> id e <> i) -> (forall e, In e l3 -> id e <> i) ->
  find_first (l1 ++ a :: mid ++ b :: l3) i = Some a /\
  find_element (l1 ++ a :: mid ++ b :: l3) i = Some b.
Proof.
  intros Ha Hb H1 H3; split.
  - rewrite find_first_skip by exact H1; simpl; rewrite Ha, String.eqb_refl; reflexivity.
  - rewrite find_element_app; simpl; rewrite find_element_app; simpl.
    rewrite find_element_none by exact H3; rewrite Hb, String.eqb_refl; reflexivity.
Qed.

Lemma duplicate_id_lookups_witness :
  find_first [new_element LINE "Line_1"; new_element CIRCLE "Line_1"] "Line_1" = Some (new_element LINE "Line_1") /\
  find_element [new_element LINE "Line_1"; new_element CIRCLE "Line_1"] "Line_1" = Some (new_element CIRCLE "Line_1").
Proof.
  apply (duplicate_id_lookups [] [] [] (new_element LINE "Line_1") (new_element CIRCLE "Line_1") "Line_1");
    try reflexivity; intros e [].
Defined.

(** ** Custom sketch planes *)

Lemma vdot_comm (u v : vec3) : vdot u v = vdot v u.
Proof. destruct u, v; unfold vdot; simpl; ring. Qed.

Lemma vdot_scale_l (k : R) (u v : vec3) : vdot (vscale k u) v = k * vdot u v.
Proof. destruct u, v; unfold vdot, vscale; simpl; ring. Qed.

Lemma vdot_scale_r (k : R) (u v : vec3) : vdot u (vscale k v) = k * vdot u v.
Proof. destruct u, v; unfold vdot, vscale; simpl; ring. Qed.

Lemma vdot_lin (a b : R) (u v w : vec3) :
  vdot (vadd (vscale a u) (vscale b v)) w = a * vdot u w + b * vdot v w.
Proof. destruct u, v, w; unfold vdot, vadd, vscale; simpl; ring. Qed.

Lemma vsub_vadd_cancel (o w : vec3) : vsub (vadd o w) o = w.
Proof. destruct o, w; unfold vsub, vadd; simpl; apply vec3_eq; ring. Qed.

Lemma vadd_vsub_cancel (o p : vec3) : vadd o (vsub p o) = p.
Proof. destruct o, p; unfold vsub, vadd; simpl; apply vec3_eq; ring. Qed.

Lemma vcross_dot_self (n x : vec3) : vdot n (vcross n x) = 0.
Proof. destruct n, x; unfold vdot, vcross; simpl; ring. Qed.

Lemma vcross_dot_right (n x : vec3) : vdot (vcross n x) x = 0.
Proof. destruct n, x; unfold vdot, vcross; simpl; ring. Qed.

Lemma lagrange3 (n x : vec3) :
  vdot (vcross n x) (vcross n x) = vdot n n * vdot x x - vdot n x ^ 2.
Proof. destruct n, x; unfold vdot, vcross; simpl; ring. Qed.

(** [(N ^ X)((N ^ X) . w)] written with dot products only. *)
Lemma cross_outer (N X w : vec3) :
  vscale (vdot w (vcross N X)) (vcross N X) =
  vsub (vsub (vscale (vdot N N * vdot X X - vdot N X ^ 2) w) (vscale (vdot X X * vdot N w) N))
       (vsub (vscale (vdot N N * vdot X w) X) (vscale (vdot N X) (vadd (vscale (vdot X w) N) (vscale (vdot N w) X)))).
Proof. destruct N, X, w; unfold vscale, vsub, vadd, vdot, vcross; simpl; apply vec3_eq; ring. Qed.

Lemma orthonormal_decomp (N X w : vec3) :
  vdot N N = 1 -> vdot X X = 1 -> vdot N X = 0 -> vdot w N = 0 ->
  vadd (vscale (vdot w X) X) (vscale (vdot w (vcross N X)) (vcross N X)) = w.
Proof.
  intros HN HX HNX HwN.
  rewrite cross_outer, HN, HX, HNX, (vdot_comm N w), HwN, (vdot_comm X w).
  destruct X, w, N; unfold vscale, vsub, vadd; simpl; apply vec3_eq; ring.
Qed.

Lemma vdot_scale_self (k : R) (u : vec3) : vdot (vscale k u) (vscale k u) = k * k * vdot u u.
Proof. destruct u; unfold vdot, vscale; simpl; ring. Qed.

Lemma gp_Dir_unit_of (v : vec3) : 0 < vmagnitude v -> vdot (gp_Dir v) (gp_Dir v) = 1.
Proof.
  intros Hm; unfold gp_Dir; rewrite vdot_scale_self.
  assert (Hsq : vmagnitude v * vmagnitude v = vdot v v).
  { unfold vmagnitude; apply sqrt_sqrt; destruct v; unfold vdot; simpl; nra. }
  rewrite <- Hsq; field; lra.
Qed.

(** The frame a custom plane gets: a unit normal [N], a unit [X] orthogonal
    to it; the two coordinate maps are then inverse on the plane. *)
Lemma custom_frame_roundtrip (o n c : vec3) (i : string) :
  0 < vmagnitude n -> 0 < vmagnitude (vcross (gp_Dir n) c) ->
  let pl := mkPlane (make_Ax2 o (gp_Dir n) (gp_Dir (vcross (gp_Dir n) c))) CUSTOM i o n in
  (forall q, to2D pl (to3D pl q) = q) /\ (forall p, on_plane pl p -> to3D pl (to2D pl p) = p).
Proof.
  intros Hn Hc pl.
  set (N := gp_Dir n) in *. set (X := gp_Dir (vcross N c)) in *.
  assert (HN : vdot N N = 1) by (apply gp_Dir_unit_of; exact Hn).
  assert (HX : vdot X X = 1) by (apply gp_Dir_unit_of; exact Hc).
  assert (HNX : vdot N X = 0) by (unfold X, gp_Dir; rewrite vdot_scale_r, vcross_dot_self; ring).
  assert (HY : vdot (vcross N X) (vcross N X) = 1) by (rewrite lagrange3, HN, HX, HNX; ring).
  assert (Hcs : coordinate_system pl = mkAx2 o N X (vcross N X)) by (apply make_Ax2_orthonormal; assumption).
  unfold on_plane, to3D, to2D; rewrite Hcs; cbn [Location XDirection YDirection origin normal]; split.
  - intros q; rewrite vsub_vadd_cancel, !vdot_lin, HX, HY, vcross_dot_right, (vdot_comm X), vcross_dot_right.
    destruct q; simpl; apply pnt2_eq; ring.
  - intros p Hp; change (vdot (vsub p o) n = 0) in Hp.
    assert (HwN : vdot (vsub p o) N = 0) by (unfold N, gp_Dir; rewrite vdot_scale_r, Hp; ring).
    cbn [x2 y2]; rewrite (orthonormal_decomp N X (vsub p o) HN HX HNX HwN).
    apply vadd_vsub_cancel.
Qed.

(** A custom plane ([SketchPlane(origin, normal, id)], and so
    [createCustomPlane]) that is built without an exception has inverse
    coordinate maps: [to2D] undoes [to3D], and [to3D] undoes [to2D] on the
    plane through [origin] with normal [normal]. *)
Theorem custom_plane_roundtrip (o n : vec3) (i : string) (pl : SketchPlane) :
  SketchPlane_custom o n i = Ret pl ->
  (forall q, to2D pl (to3D pl q) = q) /\ (forall p, on_plane pl p -> to3D pl (to2D pl p) = p).
Proof.
  intros H; pose proof gp_Resolution_pos as Hres.
  unfold SketchPlane_custom, gp_Dir_new in H.
  destruct (Rle_dec (vmagnitude n) gp_Resolution) as [Hn|Hn]; [discriminate|]; cbn [bind] in H.
  destruct (Rlt_dec (Rabs (z3 n)) 0.9); unfold gp_Dir_Crossed in H; cbv zeta in H;
    match type of H with context [Rle_dec ?m gp_Resolution] => destruct (Rle_dec m gp_Resolution) as [Hc|Hc] end;
    try discriminate; cbn [bind] in H; injection H as <-;
    apply custom_frame_roundtrip; lra.
Qed.

Lemma custom_plane_roundtrip_witness :
  to2D custom_x_plane (to3D custom_x_plane (P2 1 2)) = P2 1 2.
Proof.
  pose proof gp_Resolution_pos as Hres; pose proof gp_Resolution_lt_1 as Hres1.
  apply (custom_plane_roundtrip (V3 0 0 0) (V3 1 0 0) "Custom_Plane_0" custom_x_plane).
  unfold SketchPlane_custom, gp_Dir_new.
  destruct (Rle_dec (vmagnitude (V3 1 0 0)) gp_Resolution) as [h|h];
    [rewrite vmagnitude_x in h; lra|]; cbn [bind z3].
  rewrite Rabs_R0.
  destruct (Rlt_dec 0 0.9) as [_|h']; [|lra].
  unfold gp_Dir_Crossed; cbv zeta.
  destruct (Rle_dec (vmagnitude (vcross (gp_Dir (V3 1 0 0)) (V3 0 0 1))) gp_Resolution) as [h'|h'];
    [|reflexivity].
  rewrite (gp_Dir_unit (V3 1 0 0)) in h' by (unfold vdot; simpl; ring).
  unfold vmagnitude, vdot, vcross in h'; simpl in h'.
  replace (_ * _ + _ * _ + _ * _) with 1 in h' by ring; rewrite sqrt_1 in h'; lra.
Defined.

(** A custom plane whose normal lies on the Z axis with length below 0.9
    (for instance [(0, 0, 0.5)]) cannot be built: the X direction is taken
    as [normal ^ Z], which is null, and [gp_Dir::Crossed] raises. *)
Theorem custom_plane_short_z_normal_raises (o : vec3) (z : R) (i : string) :
  Rabs z < 0.9 -> exists msg, SketchPlane_custom o (V3 0 0 z) i = Throw msg.
Proof.
  intros Hz; pose proof gp_Resolution_pos as Hres.
  unfold SketchPlane_custom, gp_Dir_new.
  destruct (Rle_dec (vmagnitude (V3 0 0 z)) gp_Resolution); [eexists; reflexivity|]; cbn [bind z3].
  destruct (Rlt_dec (Rabs z) 0.9); [|lra].
  unfold gp_Dir_Crossed; cbv zeta.
  destruct (Rle_dec (vmagnitude (vcross (gp_Dir (V3 0 0 z)) (V3 0 0 1))) gp_Resolution) as [_|h];
    [eexists; reflexivity|].
  exfalso; apply h.
  replace (vcross (gp_Dir (V3 0 0 z)) (V3 0 0 1)) with (V3 0 0 0)
    by (unfold gp_Dir, vcross, vscale; simpl; apply vec3_eq; ring).
  unfold vmagnitude, vdot; simpl.
  replace (0 * 0 + 0 * 0 + 0 * 0) with 0 by ring; rewrite sqrt_0; lra.
Qed.

Lemma custom_plane_short_z_normal_raises_witness :
  exists msg, createCustomPlane (V3 0 0 0) (V3 0 0 0.5) 0 = Throw msg.
Proof.
  apply (custom_plane_short_z_normal_raises (V3 0 0 0) 0.5 "Custom_Plane_0").
  rewrite Rabs_pos_eq; lra.
Defined.

(** ** Extrude features: reverse flag, preview, regeneration, unused parameters *)

(** Toggling [reverse_direction] leaves the validation of a feature as it is
    and negates the sweep vector of [performBlindExtrude] exactly. *)
Theorem reverse_direction_flips `{K : Kernel} (f : ExtrudeFeature) :
  feature_validation_errors (set_params f (set_reverse (fparams f) (negb (reverse_direction (fparams f))))) =
  feature_validation_errors f /\
  blind_vector (set_params f (set_reverse (fparams f) (negb (reverse_direction (fparams f))))) =
  vscale (-1) (blind_vector f).
Proof.
  split; [reflexivity|].
  unfold blind_vector; cbn [fparams set_params set_reverse reverse_direction distance].
  change (calculateExtrudeDirection (set_params f (set_reverse (fparams f) (negb (reverse_direction (fparams f))))))
    with (calculateExtrudeDirection f).
  destruct (reverse_direction (fparams f)); simpl;
    destruct (calculateExtrudeDirection f); unfold vscale; simpl; apply vec3_eq; ring.
Qed.

(** [generatePreview] and [execute] agree: a feature that fails validation
    previews as the null shape while [execute] returns false and keeps its
    previous result shape; otherwise [execute] stores exactly the previewed
    shape with its validity, and an exception that [generatePreview] lets
    escape is caught by [execute], which returns false. *)
Theorem generatePreview_execute `{K : Kernel} (f : ExtrudeFeature) :
  (canExtrude f = false ->
   generatePreview f = Ret None /\ execute f = (set_result f (result_shape f) false, false)) /\
  (canExtrude f = true -> forall sh, generatePreview f = Ret sh ->
   execute f = (set_result f sh (validateShape sh), validateShape sh)) /\
  (canExtrude f = true -> forall m, generatePreview f = Throw m ->
   execute f = (set_result f (result_shape f) false, false)).
Proof.
  unfold generatePreview, execute; split; [|split].
  - intros H; rewrite H; split; reflexivity.
  - intros H sh Hp; rewrite H in *; simpl in *.
    destruct (ptype (fparams f)); rewrite Hp; reflexivity.
  - intros H m Hp; rewrite H in *; simpl in *.
    destruct (ptype (fparams f)); rewrite Hp; reflexivity.
Qed.

Lemma generatePreview_execute_witness :
  @generatePreview kernel_ok (mkFeature None None None (params_of_distance 10) "Extrude_1" None false) = Ret None /\
  @execute kernel_ok (mkFeature None None None (params_of_distance 10) "Extrude_1" None false) =
  (set_result (mkFeature None None None (params_of_distance 10) "Extrude_1" None false) None false, false).
Proof.
  apply (generatePreview_execute (K:=kernel_ok) (mkFeature None None None (params_of_distance 10) "Extrude_1" None false)).
  reflexivity.
Defined.

Lemma app_cons_not_nil {A} (l r : list A) (x : A) : l ++ x :: r <> [].
Proof. destruct l; discriminate. Qed.

Lemma in_validation_blocks `{K : Kernel} (f : ExtrudeFeature) (msg : string) :
  In msg (feature_validation_errors f) -> canExtrude f = false.
Proof. unfold canExtrude; destruct (feature_validation_errors f); [intros []|reflexivity]. Qed.

(** [setDistance] to a non-positive value followed by [regenerate] on a
    blind feature with a sketch or a face: [execute] returns false and marks
    the feature invalid, but the feature keeps its previous result shape,
    which [getShape] still returns. *)
Theorem failed_regenerate_keeps_shape `{K : Kernel} (f : ExtrudeFeature) (d : R) :
  d <= 0 -> ptype (fparams f) = BLIND ->
  (base_sketch f <> None \/ face_to_extrude f <> None) ->
  setDistance_regenerate f d =
  (set_result (set_params f (set_distance (fparams f) d)) (result_shape f) false, false).
Proof.
  intros Hd Ht Hsf.
  unfold setDistance_regenerate, execute.
  replace (canExtrude (set_params f (set_distance (fparams f) d))) with false; [reflexivity|].
  symmetry; apply (in_validation_blocks _ "Extrude distance must be positive"%string).
  unfold feature_validation_errors.
  cbn [set_params set_distance fparams base_sketch face_to_extrude ptype distance].
  rewrite Ht; destruct (Rle_dec d 0) as [_|h]; [|lra]; cbn [ExtrudeType_eqb].
  destruct (base_sketch f) as [s|], (face_to_extrude f) as [fc|];
    [| | |destruct Hsf as [h|h]; exfalso; apply h; reflexivity];
    apply in_or_app; right; apply in_or_app; left; left; reflexivity.
Qed.

Lemma failed_regenerate_keeps_shape_witness :
  @setDistance_regenerate kernel_ok (circle_feature (params_of_distance 10)) 0 =
  (set_result (set_params (circle_feature (params_of_distance 10)) (set_distance (params_of_distance 10) 0)) None false, false).
Proof.
  apply (failed_regenerate_keeps_shape (K:=kernel_ok) (circle_feature (params_of_distance 10)) 0).
  - lra.
  - reflexivity.
  - left; discriminate.
Defined.

(** The taper angle is never read: a feature that differs only in it
    previews the same shape, and [execute] gives the same outcome. *)
Theorem taper_angle_unused `{K : Kernel} (f : ExtrudeFeature) (t : R) :
  generatePreview (set_params f (set_taper (fparams f) t)) = generatePreview f /\
  execute (set_params f (set_taper (fparams f) t)) =
  (set_params (fst (execute f)) (set_taper (fparams f) t), snd (execute f)).
Proof.
  split; [reflexivity|].
  unfold execute.
  change (canExtrude (set_params f (set_taper (fparams f) t))) with (canExtrude f).
  change (ptype (fparams (set_params f (set_taper (fparams f) t)))) with (ptype (fparams f)).
  change (performBlindExtrude (set_params f (set_taper (fparams f) t))) with (performBlindExtrude f).
  change (performSymmetricExtrude (set_params f (set_taper (fparams f) t))) with (performSymmetricExtrude f).
  destruct (negb (canExtrude f)); [reflexivity|].
  destruct (ptype (fparams f));
    [destruct (performBlindExtrude f) | destruct (performBlindExtrude f) | destruct (performBlindExtrude f)
    | destruct (performSymmetricExtrude f)]; reflexivity.
Qed.

Lemma validation_nonempty_blocks `{K : Kernel} (f : ExtrudeFeature) :
  feature_validation_errors f <> [] ->
  snd (execute f) = false /\ is_valid (fst (execute f)) = false /\ generatePreview f = Ret None.
Proof.
  intros H; assert (C : canExtrude f = false)
    by (unfold canExtrude; destruct (feature_validation_errors f); [congruence|reflexivity]).
  unfold execute, generatePreview; rewrite C; repeat split.
Qed.

(** A direction parameter shorter than [1e-6] makes [execute] fail and
    [generatePreview] return the null shape, although the sweep never uses
    that direction. *)
Theorem tiny_direction_blocks `{K : Kernel} (f : ExtrudeFeature) :
  vmagnitude (direction (fparams f)) < 1e-6 ->
  snd (execute f) = false /\ is_valid (fst (execute f)) = false /\ generatePreview f = Ret None.
Proof.
  intros Hd; apply validation_nonempty_blocks.
  unfold feature_validation_errors.
  destruct (base_sketch f), (face_to_extrude f); try discriminate;
    destruct (Rlt_dec (vmagnitude (direction (fparams f))) 1e-6) as [_|h]; try lra;
    rewrite !app_assoc; apply app_cons_not_nil.
Qed.

Lemma tiny_direction_blocks_witness :
  snd (@execute kernel_ok (circle_feature (mkParams BLIND 10 (V3 0 0 0) false 0 5 5))) = false /\
  is_valid (fst (@execute kernel_ok (circle_feature (mkParams BLIND 10 (V3 0 0 0) false 0 5 5)))) = false /\
  @generatePreview kernel_ok (circle_feature (mkParams BLIND 10 (V3 0 0 0) false 0 5 5)) = Ret None.
Proof.
  apply (tiny_direction_blocks (K:=kernel_ok)).
  unfold vmagnitude, vdot; simpl.
  replace (0 * 0 + 0 * 0 + 0 * 0) with 0 by ring; rewrite sqrt_0; lra.
Defined.

(** ** The session maps *)

Lemma map_find_filter {A} (m : smap A) (k k' : string) :
  map_find (filter (fun kv => negb (String.eqb (fst kv) k)) m) k' =
  if String.eqb k' k then None else map_find m k'.
Proof.
  induction m as [|[k0 v0] m IH]; simpl.
  - destruct (String.eqb k' k); reflexivity.
  - destruct (String.eqb k0 k) eqn:E0; simpl.
    + rewrite IH; apply String.eqb_eq in E0; subst k0.
      destruct (String.eqb k' k) eqn:E; [reflexivity|].
      rewrite String.eqb_sym, E; reflexivity.
    + rewrite IH; destruct (String.eqb k0 k') eqn:E1.
      * apply String.eqb_eq in E1; subst k0; rewrite E0; reflexivity.
      * reflexivity.
Qed.

Lemma map_find_set {A} (m : smap A) (k k' : string) (v : A) :
  map_find (map_set k v m) k' = if String.eqb k' k then Some v else map_find m k'.
Proof.
  unfold map_set; simpl; rewrite map_find_filter, String.eqb_sym.
  destruct (String.eqb k' k); reflexivity.
Qed.

Lemma map_find_set_same {A} (m : smap A) (k : string) (v : A) :
  map_find m k = Some v -> forall k', map_find (map_set k v m) k' = map_find m k'.
Proof.
  intros H k'; rewrite map_find_set.
  destruct (String.eqb k' k) eqn:E; [apply String.eqb_eq in E; subst; auto|reflexivity].
Qed.

(** Requests naming a sketch or a plane the session does not hold, and
    plane types other than XY, XZ and YZ, return the empty id and leave the
    session unchanged. *)
Theorem engine_missing_keys `{K : Kernel} (e : Engine) (now : nat) (pid sid eid id1 id2 t dir : string)
  (o : vec3) (a b c d : R) :
  (map_find (sketch_planes e) pid = None -> createSketch e pid now = (e, ""%string)) /\
  (t <> "XY"%string -> t <> "XZ"%string -> t <> "YZ"%string -> createSketchPlane e t o = (e, ""%string)) /\
  (map_find (sketches e) sid = None ->
   extrudeSketch e now sid a dir = (e, ""%string) /\
   extrudeSketchElement e now sid eid a dir = (e, ""%string) /\
   addLineToSketch e sid a b c d = (e, ""%string) /\
   addCircleToSketch e sid a b c = (e, ""%string) /\
   addRectangleToSketch e sid a b c d = (e, ""%string) /\
   addFilletToSketch e sid id1 id2 a = (e, ""%string)).
Proof.
  split; [|split].
  - intros H; unfold createSketch; rewrite H; reflexivity.
  - intros H1 H2 H3; unfold createSketchPlane.
    apply String.eqb_neq in H1, H2, H3; rewrite H1, H2, H3; reflexivity.
  - intros H; unfold extrudeSketch, extrudeSketchElement, addLineToSketch, addCircleToSketch,
      addRectangleToSketch, addFilletToSketch, update_sketch; rewrite H; repeat split.
Qed.

Lemma engine_missing_keys_witness :
  @createSketch corner_session "XY_Plane" 0 = (corner_session, ""%string) /\
  createSketchPlane corner_session "xy" (V3 0 0 0) = (corner_session, ""%string) /\
  (@extrudeSketch kernel_ok corner_session 0 "Sketch_2" 1 "" = (corner_session, ""%string) /\
   @extrudeSketchElement kernel_ok corner_session 0 "Sketch_2" "Line_1" 1 "" = (corner_session, ""%string) /\
   addLineToSketch corner_session "Sketch_2" 1 1 1 1 = (corner_session, ""%string) /\
   addCircleToSketch corner_session "Sketch_2" 1 1 1 = (corner_session, ""%string) /\
   addRectangleToSketch corner_session "Sketch_2" 1 1 1 1 = (corner_session, ""%string) /\
   addFilletToSketch corner_session "Sketch_2" "Line_1" "Line_2" 1 = (corner_session, ""%string)).
Proof.
  destruct (engine_missing_keys (K:=kernel_ok) corner_session 0 "XY_Plane" "Sketch_2" "Line_1" "Line_1" "Line_2"
              "xy" "" (V3 0 0 0) 1 1 1 1) as [H1 [H2 H3]].
  split; [apply H1; reflexivity|]. split; [apply H2; discriminate|].
  apply H3; reflexivity.
Defined.

(** [addLineToSketch], [addCircleToSketch] and [addRectangleToSketch] on a
    sketch the session holds: the returned id is not empty, the stored
    sketch gains one element with that id, which the sketch's last-match
    lookup finds, and no other sketch, plane or shape changes. *)
Theorem add_to_sketch_stores (e e' : Engine) (sid i : string) (s : Sketch) (x y a b : R) :
  map_find (sketches e) sid = Some s ->
  addLineToSketch e sid x y a b = (e', i) \/ addCircleToSketch e sid x y a = (e', i) \/
  addRectangleToSketch e sid x y a b = (e', i) ->
  i <> ""%string /\
  (exists s' el, map_find (sketches e') sid = Some s' /\ elements s' = elements s ++ [el] /\
     id el = i /\ find_element (elements s') i = Some el) /\
  (forall k, k <> sid -> map_find (sketches e') k = map_find (sketches e) k) /\
  shapes e' = shapes e /\ sketch_planes e' = sketch_planes e.
Proof.
  intros Hs Hop.
  unfold addLineToSketch, addCircleToSketch, addRectangleToSketch, update_sketch in Hop; rewrite Hs in Hop.
  destruct Hop as [H|[H|H]]; injection H as <- <-;
    (split; [apply next_id_nonempty; discriminate|]);
    (split; [eexists; eexists; cbn [sketches set_sketches]; rewrite map_find_set, String.eqb_refl;
             refine (conj eq_refl (conj eq_refl (conj eq_refl _)));
             apply (find_element_app_last _ (mkElement _ _ _ _ _ _ _))|]);
    (split; [intros k Hk; cbn [sketches set_sketches]; rewrite map_find_set;
             apply String.eqb_neq in Hk; rewrite Hk; reflexivity|]);
    repeat split.
Qed.

Lemma add_to_sketch_stores_witness :
  (""%string <> "Line_3"%string) /\
  map_find (sketches (fst (addLineToSketch corner_session "Sketch_1" 10 10 0 10))) "Sketch_1" =
  Some (fst (addLine corner_sketch (P2 10 10) (P2 0 10))).
Proof.
  destruct (add_to_sketch_stores corner_session (fst (addLineToSketch corner_session "Sketch_1" 10 10 0 10))
              "Sketch_1" "Line_3" corner_sketch 10 10 0 10 eq_refl (or_introl eq_refl)) as [Hi _].
  split; [intros H; apply Hi; symmetry; exact H|reflexivity].
Defined.

(** [addFilletToSketch] never raises: a fillet that is refused, or whose
    construction raises inside the kernel, gives the empty id and leaves
    every sketch as it was; a non-empty id is the id of a Fillet element the
    stored sketch now ends with. *)
Theorem addFilletToSketch_outcome (e e' : Engine) (sid id1 id2 fid : string) (r : R) :
  addFilletToSketch e sid id1 id2 r = (e', fid) ->
  (fid = ""%string /\ forall k, map_find (sketches e') k = map_find (sketches e) k) \/
  (fid <> ""%string /\ exists s s' el, map_find (sketches e) sid = Some s /\
     map_find (sketches e') sid = Some s' /\ elements s' = elements s ++ [el] /\ id el = fid /\
     etype el = FILLET).
Proof.
  unfold addFilletToSketch.
  destruct (map_find (sketches e) sid) as [s|] eqn:Hs; [|intros H; injection H as <- <-; left; auto].
  destruct (addFillet s id1 id2 r) as [[s'' f]|m] eqn:F; [|intros H; injection H as <- <-; left; auto].
  intros H; injection H as <- <-.
  unfold addFillet in F.
  destruct (find_element (elements s) id1) as [e1|];
    [|injection F as <- <-; left; split; [reflexivity|apply map_find_set_same; exact Hs]].
  destruct (find_element (elements s) id2) as [e2|];
    [|injection F as <- <-; left; split; [reflexivity|apply map_find_set_same; exact Hs]].
  destruct (getElementIntersection s id1 id2) as [I|];
    [|injection F as <- <-; left; split; [reflexivity|apply map_find_set_same; exact Hs]].
  destruct (is_line e1 && is_line e2);
    [|injection F as <- <-; left; split; [reflexivity|apply map_find_set_same; exact Hs]].
  unfold bind in F.
  repeat match type of F with
  | context [match ?m with Ret _ => _ | Throw _ => _ end] => destruct m; [cbv beta in F|discriminate]
  end.
  injection F as <- <-; right; split; [apply next_id_nonempty; discriminate|].
  do 3 eexists; split; [reflexivity|]; split; [cbn [sketches set_sketches]; rewrite map_find_set, String.eqb_refl; reflexivity|].
  repeat split.
Qed.

Lemma addFilletToSketch_outcome_witness :
  snd (addFilletToSketch corner_session "Sketch_1" "Line_1" "Line_2" 0) = ""%string.
Proof.
  destruct (addFilletToSketch corner_session "Sketch_1" "Line_1" "Line_2" 0) as [e' fid] eqn:E.
  destruct (addFilletToSketch_outcome _ _ _ _ _ _ _ E) as [[-> _]|[Hne _]]; [reflexivity|].
  exfalso; unfold addFilletToSketch in E; simpl in E.
  destruct corner_fillet_zero as [m Hm]; rewrite Hm in E; simpl in E.
  injection E as _ Hf; apply Hne; symmetry; exact Hf.
Defined.

Lemma execute_true `{K : Kernel} (f f' : ExtrudeFeature) :
  execute f = (f', true) ->
  exists sh, result_shape f' = Some sh /\ shape_valid sh = true /\ is_valid f' = true /\
    feature_id f' = feature_id f.
Proof.
  unfold execute; destruct (negb (canExtrude f)); [intros H; discriminate (f_equal snd H)|].
  destruct (match ptype (fparams f) with
            | BLIND => performBlindExtrude f
            | SYMMETRIC => performSymmetricExtrude f
            | _ => performBlindExtrude f end) as [[sh|]|m];
    intros H; injection H as <- Hv; try discriminate.
  exists sh; repeat split; exact Hv.
Qed.

(** [extrudeSketch] and [extrudeSketchElement] either fail, returning the
    empty id with the session unchanged, or return ["Extrude_" + time],
    under which the session now holds a valid shape and a valid feature
    whose result is that shape; sketches and planes are untouched. *)
Theorem extrude_stores `{K : Kernel} (e e' : Engine) (now : nat) (sid eid dir fid : string) (dist : R) :
  extrudeSketch e now sid dist dir = (e', fid) \/ extrudeSketchElement e now sid eid dist dir = (e', fid) ->
  (fid = ""%string /\ e' = e) \/
  (fid = ("Extrude_" ++ nat_to_string now)%string /\
   exists sh f, map_find (shapes e') fid = Some (Some sh) /\ shape_valid sh = true /\
     map_find (extrude_features e') fid = Some f /\ result_shape f = Some sh /\ is_valid f = true /\
     sketches e' = sketches e /\ sketch_planes e' = sketch_planes e).
Proof.
  assert (Hstore : forall f f', execute f = (f', true) -> feature_id f = ("Extrude_" ++ nat_to_string now)%string ->
            (store_feature e f', feature_id f') = (e', fid) ->
            fid = ("Extrude_" ++ nat_to_string now)%string /\
            exists sh f0, map_find (shapes e') fid = Some (Some sh) /\ shape_valid sh = true /\
              map_find (extrude_features e') fid = Some f0 /\ result_shape f0 = Some sh /\ is_valid f0 = true /\
              sketches e' = sketches e /\ sketch_planes e' = sketch_planes e).
  { intros f f' Hx Hid H; injection H as <- <-.
    destruct (execute_true f f' Hx) as (sh & Hr & Hv & Hok & Hfid).
    split; [congruence|]. exists sh, f'.
    unfold store_feature; cbn [shapes extrude_features sketches sketch_planes].
    rewrite !map_find_set, String.eqb_refl, Hr.
    repeat split; assumption. }
  intros [H|H].
  - unfold extrudeSketch in H.
    destruct (map_find (sketches e) sid) as [s|]; [|injection H as <- <-; left; auto].
    destruct (execute (new_feature_sketch s (params_of_distance dist) "" now)) as [f' [|]] eqn:X;
      [right; exact (Hstore _ _ X eq_refl H)|injection H as <- <-; left; auto].
  - unfold extrudeSketchElement in H.
    destruct (map_find (sketches e) sid) as [s|]; [|injection H as <- <-; left; auto].
    destruct (createFaceFromElement s eid) as [[fc|]|m]; try (injection H as <- <-; left; auto).
    destruct (execute (new_feature_face fc (sketch_plane s) (params_of_distance dist) "" now)) as [f' [|]] eqn:X;
      [right; exact (Hstore _ _ X eq_refl H)|injection H as <- <-; left; auto].
Qed.

Lemma extrude_stores_witness :
  (""%string = ""%string /\ corner_session = corner_session) \/
  (""%string = ("Extrude_" ++ nat_to_string 0)%string /\
   exists sh f, map_find (shapes corner_session) "" = Some (Some sh) /\ @shape_valid kernel_ok sh = true /\
     map_find (extrude_features corner_session) "" = Some f /\ result_shape f = Some sh /\ is_valid f = true /\
     sketches corner_session = sketches corner_session /\ sketch_planes corner_session = sketch_planes corner_session).
Proof.
  apply (extrude_stores (K:=kernel_ok) corner_session corner_session 0 "Sketch_2" "Line_1" "" "" 1).
  left; reflexivity.
Defined.

(** The common body of [unionShapes], [cutShapes] and [intersectShapes]:
    either the call returns false and the session is unchanged (an operand
    missing, the kernel raising, or a result that fails [validateShape]),
    or it returns true, both operands existed, the kernel's result is valid
    and stored under the result id, and every other shape, sketch, plane
    and feature is unchanged. *)
Theorem boolean_op_outcome `{K : Kernel} (op : option Shape -> option Shape -> Exc (option Shape))
  (e e' : Engine) (a b r : string) (ok : bool) :
  boolean_op op e a b r = (e', ok) ->
  (ok = false /\ e' = e) \/
  (ok = true /\ exists sa sb res, map_find (shapes e) a = Some sa /\ map_find (shapes e) b = Some sb /\
     op sa sb = Ret res /\ validateShape res = true /\ map_find (shapes e') r = Some res /\
     (forall k, k <> r -> map_find (shapes e') k = map_find (shapes e) k) /\
     sketches e' = sketches e /\ sketch_planes e' = sketch_planes e /\ extrude_features e' = extrude_features e).
Proof.
  unfold boolean_op.
  destruct (map_find (shapes e) a) as [sa|] eqn:Ha; [|intros H; injection H as <- <-; left; auto].
  destruct (map_find (shapes e) b) as [sb|] eqn:Hb; [|intros H; injection H as <- <-; left; auto].
  destruct (op sa sb) as [res|m] eqn:Hop; [|intros H; injection H as <- <-; left; auto].
  destruct (validateShape res) eqn:Hv; [|intros H; injection H as <- <-; left; auto].
  intros H; injection H as <- <-; right; split; [reflexivity|].
  exists sa, sb, res; repeat split; try assumption.
  - cbn [shapes set_shapes]; rewrite map_find_set, String.eqb_refl; reflexivity.
  - intros k Hk; cbn [shapes set_shapes]; rewrite map_find_set.
    apply String.eqb_neq in Hk; rewrite Hk; reflexivity.
Qed.

Lemma boolean_op_outcome_witness :
  (false = false /\ empty_engine = empty_engine) \/
  (false = true /\ exists sa sb res, map_find (shapes empty_engine) "A" = Some sa /\
     map_find (shapes empty_engine) "B" = Some sb /\
     (fun _ _ : option Shape => Ret (@None Shape)) sa sb = Ret res /\ @validateShape kernel_ok res = true /\
     map_find (shapes empty_engine) "C" = Some res /\
     (forall k, k <> "C"%string -> map_find (shapes empty_engine) k = map_find (shapes empty_engine) k) /\
     sketches empty_engine = sketches empty_engine /\ sketch_planes empty_engine = sketch_planes empty_engine /\
     extrude_features empty_engine = extrude_features empty_engine).
Proof.
  apply (boolean_op_outcome (K:=kernel_ok) (fun _ _ => Ret None) empty_engine empty_engine "A" "B" "C" false).
  reflexivity.
Defined.

Lemma map_find_erase {A} (m : smap A) (k k' : string) :
  map_find (map_erase k m) k' = if String.eqb k' k then None else map_find m k'.
Proof. apply map_find_filter. Qed.

(** [removeShape] removes exactly the named shape: the extrude feature of
    that id, the sketches and the planes stay; [clearAll] leaves no shape,
    sketch or plane. *)
Theorem removeShape_clearAll (e : Engine) (k k' : string) :
  shapeExists (removeShape e k) k = false /\
  (k' <> k -> shapeExists (removeShape e k) k' = shapeExists e k') /\
  extrude_features (removeShape e k) = extrude_features e /\
  sketches (removeShape e k) = sketches e /\ sketch_planes (removeShape e k) = sketch_planes e /\
  shapeExists (engine_clearAll e) k = false /\ sketchExists (engine_clearAll e) k = false /\
  planeExists (engine_clearAll e) k = false.
Proof.
  unfold shapeExists, map_mem, removeShape; cbn [shapes set_shapes].
  split; [rewrite map_find_erase, String.eqb_refl; reflexivity|].
  split; [intros H; rewrite map_find_erase; apply String.eqb_neq in H; rewrite H; reflexivity|].
  repeat split.
Qed.

Lemma removeShape_clearAll_witness :
  shapeExists (removeShape (mkEngine [("A"%string, None); ("B"%string, None)] [] [] []) "A") "B" = true.
Proof.
  destruct (removeShape_clearAll (mkEngine [("A"%string, None); ("B"%string, None)] [] [] []) "A" "B")
    as [_ [H _]].
  rewrite H by discriminate; reflexivity.
Defined.

(** ** Session identifiers *)

Lemma execute_feature_id `{K : Kernel} (f : ExtrudeFeature) :
  feature_id (fst (execute f)) = feature_id f.
Proof.
  unfold execute; destruct (negb (canExtrude f)); [reflexivity|].
  destruct (ptype (fparams f));
    match goal with |- context [match ?m with Ret _ => _ | Throw _ => _ end] => destruct m end; reflexivity.
Qed.

(** C7 (amended): plane ids are fixed per canonical type and a repeated
    [createSketchPlane] of the same type replaces the registered plane under
    the same id; sketch ids are ["Sketch_" ++ t] and the features of both
    extrude paths get ["Extrude_" ++ t], with [t] the clock in seconds, so
    that two such ids differ when their seconds differ. *)
Theorem session_ids `{K : Kernel} :
  (forall e o, snd (createSketchPlane e "XY" o) = "XY_Plane"%string) /\
  (forall e o, snd (createSketchPlane e "XZ" o) = "XZ_Plane"%string) /\
  (forall e o, snd (createSketchPlane e "YZ" o) = "YZ_Plane"%string) /\
  (forall e o1 o2,
     map_find (sketch_planes (fst (createSketchPlane (fst (createSketchPlane e "XY" o1)) "XY" o2))) "XY_Plane"
     = Some (SketchPlane_of_type XY o2)) /\
  (forall e o1 o2,
     map_find (sketch_planes (fst (createSketchPlane (fst (createSketchPlane e "XZ" o1)) "XZ" o2))) "XZ_Plane"
     = Some (SketchPlane_of_type XZ o2)) /\
  (forall e o1 o2,
     map_find (sketch_planes (fst (createSketchPlane (fst (createSketchPlane e "YZ" o1)) "YZ" o2))) "YZ_Plane"
     = Some (SketchPlane_of_type YZ o2)) /\
  (forall s p now, feature_id (new_feature_sketch s p "" now) = ("Extrude_" ++ nat_to_string now)%string) /\
  (forall fc pl p now, feature_id (new_feature_face fc pl p "" now) = ("Extrude_" ++ nat_to_string now)%string) /\
  (forall e now sid eid dist dir e' fid,
     extrudeSketch e now sid dist dir = (e', fid) \/ extrudeSketchElement e now sid eid dist dir = (e', fid) ->
     fid = ""%string \/ fid = ("Extrude_" ++ nat_to_string now)%string) /\
  (forall n m, n <> m ->
     ("Sketch_" ++ nat_to_string n)%string <> ("Sketch_" ++ nat_to_string m)%string /\
     ("Extrude_" ++ nat_to_string n)%string <> ("Extrude_" ++ nat_to_string m)%string) /\
  (forall e pid now pl, map_find (sketch_planes e) pid = Some pl ->
     snd (createSketch e pid now) = ("Sketch_" ++ nat_to_string now)%string /\
     map_find (sketches (fst (createSketch e pid now))) ("Sketch_" ++ nat_to_string now)%string
     = Some (new_Sketch pl "" now)).
Proof.
  do 8 (split; [intros; reflexivity|]).
  split.
  { intros e now sid eid dist dir e' fid [H|H].
    - unfold extrudeSketch in H. destruct (map_find (sketches e) sid) as [s|];
        [|injection H as _ <-; left; reflexivity].
      pose proof (execute_feature_id (new_feature_sketch s (params_of_distance dist) "" now)) as Hid.
      destruct (execute (new_feature_sketch s (params_of_distance dist) "" now)) as [f' ok].
      destruct ok; injection H as _ <-; [right; exact Hid|left; reflexivity].
    - unfold extrudeSketchElement in H. destruct (map_find (sketches e) sid) as [s|];
        [|injection H as _ <-; left; reflexivity].
      destruct (createFaceFromElement s eid) as [[fc|]|m]; [|injection H as _ <-; left; reflexivity
                                                          |injection H as _ <-; left; reflexivity].
      pose proof (execute_feature_id (new_feature_face fc (sketch_plane s) (params_of_distance dist) "" now)) as Hid.
      destruct (execute (new_feature_face fc (sketch_plane s) (params_of_distance dist) "" now)) as [f' ok].
      destruct ok; injection H as _ <-; [right; exact Hid|left; reflexivity]. }
  split.
  { intros n m Hnm; split; intros H; apply Hnm, nat_to_string_inj, (string_app_inv_head _ _ _ H). }
  intros e pid now pl H. unfold createSketch; rewrite H. split; [reflexivity|].
  simpl. rewrite String.eqb_refl. reflexivity.
Qed.

Lemma session_ids_witness :
  snd (createSketch (fst (createSketchPlane empty_engine "XY" (V3 0 0 0))) "XY_Plane" 7) = "Sketch_7"%string.
Proof.
  apply (proj2 (proj2 (proj2 (proj2 (proj2 (proj2 (proj2 (proj2 (proj2 (proj2 (@session_ids kernel_ok))))))))))
           _ _ 7%nat xy_plane).
  reflexivity.
Defined.

(** C7 does not hold as stated: two [createSketchPlane "XY"] calls in one
    session return the same id. *)
Lemma createSketchPlane_same_id :
  snd (createSketchPlane empty_engine "XY" (V3 0 0 0)) = "XY_Plane"%string /\
  snd (createSketchPlane (fst (createSketchPlane empty_engine "XY" (V3 0 0 0))) "XY" (V3 1 1 1))
  = "XY_Plane"%string.
Proof. split; reflexivity. Qed.
